(** * svelte-native transitions: the transition-tick adapter

    A shallow embedding of [asSvelteTransition] and of the [fade], [fly] and
    [slide] factories.  The repository holds two revisions of the module:

    - [src/transitions/index.ts], embedded in [Module Index];
    - a second revision of the same module, embedded in [Module Rev].

    They differ in four places: the test that classifies the first tick, the
    progress value used to slice the curve of an outro, the way the built-in
    mapper reads a [scale] or [translate] pair, and whether a failure of
    [createAnimation] is caught.  Everything the two revisions share (values,
    the view, the native animation facade, the closure state) is defined once
    below.

    JavaScript numbers are modelled as exact rationals: rounding, NaN and the
    infinities are outside the model.  [Trace.write] calls only log and are
    left out. *)

From Stdlib Require Import QArith Lqa Bool List Lia.
From stdpp Require Import gmap strings list.

Local Open Scope Q_scope.

(** ** Numbers *)

Abbreviation number := Q (only parsing).

(** [a < b] on numbers, as a test. *)
Definition Qlt_bool (a b : number) : bool :=
  match a ?= b with Lt => true | _ => false end.

(** ** Values held by an animation definition

    [NativeAnimationDefinition] has number, [Pair] and [Color] members.  A
    definition is an object literal; it is kept as the list of its entries in
    [Object.keys] order (each key occurs once). *)

Record Pair := { x : number; y : number }.

Record Color := { argb : Z }.

Inductive Value :=
| VNumber (n : number)
| VPair (p : Pair)
| VColor (c : Color).

Abbreviation NativeAnimationDefinition := (list (string * Value)) (only parsing).

(** [animDef[k]]: [None] is [undefined]. *)
Fixpoint lookupKey (animDef : list (string * Value)) (k : string) : option Value :=
  match animDef with
  | [] => None
  | (k', v) :: rest => if String.eqb k' k then Some v else lookupKey rest k
  end.

(** [Object.keys(animDef)]. *)
Definition keys (animDef : list (string * Value)) : list string := map fst animDef.

(** ** Completions: a call returns normally or throws *)

Inductive Error :=
| TypeError        (* a property of [undefined] was read *)
| NativeError.     (* the native facade threw *)

Inductive Completion (A : Type) :=
| Normal (a : A)
| Throw (e : Error).
Arguments Normal {A} a.
Arguments Throw {A} e.

(** [o.k] for a value [o] that may be [undefined] ([None]).  Reading a
    property of [undefined] throws; a pair has the properties [x] and [y];
    a number or a colour has none of the names read by the mapper. *)
Definition getMember (o : option Value) (k : string) : Completion (option Value) :=
  match o with
  | None => Throw TypeError
  | Some (VPair p) =>
      if String.eqb k "x" then Normal (Some (VNumber (x p)))
      else if String.eqb k "y" then Normal (Some (VNumber (y p)))
      else Normal None
  | Some _ => Normal None
  end.

(** ** The native view

    The record keeps the own properties of the view and the entries of its
    style apart.  How NativeScript ties the two together is not modelled:
    the statements about a property that was written read it back where it
    was written, and none relies on one of the two staying as it was while
    the other is written. *)

Record View := {
  opacity : number;
  translateX : number;
  translateY : number;
  scaleX : number;
  scaleY : number;
  effectiveHeight : number;
  (* [view.style]; [None] when the view has no style object *)
  style : option (gmap string Value);
  (* any other own property written on the view *)
  expando : gmap string Value;
  (* truthy once the underlying native view exists *)
  nativeViewProtected : bool
}.

Definition set_numeric (k : string) (n : number) (v : View) : option View :=
  if String.eqb k "opacity" then
    Some {| opacity := n; translateX := translateX v; translateY := translateY v;
            scaleX := scaleX v; scaleY := scaleY v; effectiveHeight := effectiveHeight v;
            style := style v; expando := expando v;
            nativeViewProtected := nativeViewProtected v |}
  else if String.eqb k "translateX" then
    Some {| opacity := opacity v; translateX := n; translateY := translateY v;
            scaleX := scaleX v; scaleY := scaleY v; effectiveHeight := effectiveHeight v;
            style := style v; expando := expando v;
            nativeViewProtected := nativeViewProtected v |}
  else if String.eqb k "translateY" then
    Some {| opacity := opacity v; translateX := translateX v; translateY := n;
            scaleX := scaleX v; scaleY := scaleY v; effectiveHeight := effectiveHeight v;
            style := style v; expando := expando v;
            nativeViewProtected := nativeViewProtected v |}
  else if String.eqb k "scaleX" then
    Some {| opacity := opacity v; translateX := translateX v; translateY := translateY v;
            scaleX := n; scaleY := scaleY v; effectiveHeight := effectiveHeight v;
            style := style v; expando := expando v;
            nativeViewProtected := nativeViewProtected v |}
  else if String.eqb k "scaleY" then
    Some {| opacity := opacity v; translateX := translateX v; translateY := translateY v;
            scaleX := scaleX v; scaleY := n; effectiveHeight := effectiveHeight v;
            style := style v; expando := expando v;
            nativeViewProtected := nativeViewProtected v |}
  else None.

Definition set_expando (e : gmap string Value) (v : View) : View :=
  {| opacity := opacity v; translateX := translateX v; translateY := translateY v;
     scaleX := scaleX v; scaleY := scaleY v; effectiveHeight := effectiveHeight v;
     style := style v; expando := e;
     nativeViewProtected := nativeViewProtected v |}.

Definition set_style (s : option (gmap string Value)) (v : View) : View :=
  {| opacity := opacity v; translateX := translateX v; translateY := translateY v;
     scaleX := scaleX v; scaleY := scaleY v; effectiveHeight := effectiveHeight v;
     style := s; expando := expando v;
     nativeViewProtected := nativeViewProtected v |}.

Definition set_nativeViewProtected (b : bool) (v : View) : View :=
  {| opacity := opacity v; translateX := translateX v; translateY := translateY v;
     scaleX := scaleX v; scaleY := scaleY v; effectiveHeight := effectiveHeight v;
     style := style v; expando := expando v;
     nativeViewProtected := b |}.

(** [view[k] = value].  The numeric properties of the view take numbers;
    what the native property system does with another value is not
    modelled (the property is left as it is).  Any other key becomes an own
    property; assigning [undefined] reads back as [undefined]. *)
Definition assignView (k : string) (value : option Value) (v : View) : View :=
  match set_numeric k 0 v, value with
  | Some _, Some (VNumber n) => default v (set_numeric k n v)
  | Some _, _ => v
  | None, Some val => set_expando (<[k := val]> (expando v)) v
  | None, None => set_expando (delete k (expando v)) v
  end.

(** [(view.style || view)[k] = value]. *)
Definition assignStyleOrView (k : string) (value : option Value) (v : View) : View :=
  match style v with
  | Some s =>
      match value with
      | Some val => set_style (Some (<[k := val]> s)) v
      | None => set_style (Some (delete k s)) v
      end
  | None => assignView k value v
  end.

(** ** The bezier module

    [./bezier] is imported by the transitions module but is not among the
    sources; its curves and operations are taken as parameters. *)

Record CubicBezier := { x1 : number; y1 : number; x2 : number; y2 : number }.

Class Bezier := {
  linear : CubicBezier;
  ease : CubicBezier;
  ease_in : CubicBezier;
  ease_out : CubicBezier;
  ease_in_out : CubicBezier;
  animation_curve : number -> number -> number -> number -> CubicBezier;
  partialCurveFrom : CubicBezier -> number -> number -> CubicBezier;
  reverseCurve : CubicBezier -> CubicBezier;
  normalizeCurve : CubicBezier -> CubicBezier
}.

(** ** The native animation facade (@nativescript/core) *)

(** [CoreTypes.AnimationCurve.cubicBezier(x1, y1, x2, y2)]. *)
Inductive CubicBezierAnimationCurve :=
| cubicBezier (cx1 cy1 cx2 cy2 : number).

(** The names in [CoreTypes.AnimationCurve]. *)
Module AnimationCurve.
Definition ease : string := "ease".
Definition easeIn : string := "easeIn".
Definition easeOut : string := "easeOut".
Definition easeInOut : string := "easeInOut".
Definition linear : string := "linear".
End AnimationCurve.

(** The [curve] argument: [string | CubicBezierAnimationCurve], or a falsy
    value such as [null]. *)
Inductive CurveArg :=
| CurveName (name : string)
| CurveBezier (c : CubicBezierAnimationCurve)
| CurveNull.

(** [AnimationDefinition]: the spread of the target properties, then
    [delay], [curve] and [duration]. *)
Record AnimationDefinition := {
  ns_target : list (string * Value);
  ns_delay : number;
  ns_curve : CubicBezierAnimationCurve;
  ns_duration : number
}.

Inductive AnimationStatus :=
| Created      (* returned by [createAnimation], [play] not called yet *)
| Playing      (* [isPlaying] *)
| Finished     (* played to its end, and not started again *)
| Cancelled.   (* [cancel] was called while it played, and not started again *)

Record Animation := {
  definition : AnimationDefinition;
  status : AnimationStatus
}.

Definition isPlaying (a : Animation) : bool :=
  match status a with Playing => true | _ => false end.

(** A handle that was neither cancelled nor played to its end. *)
Definition isLive (a : Animation) : bool :=
  match status a with Created | Playing => true | _ => false end.

Definition set_status (s : AnimationStatus) (a : Animation) : Animation :=
  {| definition := definition a; status := s |}.

(** What the host does when asked: whether [createAnimation] and [play]
    throw on this call. *)
Record Host := {
  createAnimation_throws : bool;
  play_throws : bool
}.

(** Calls made on the view and on the facade, oldest first. *)
Inductive Call :=
| CallBatchUpdate (time : number)   (* [applyAnimAtTime(time)] entered [_batchUpdate] *)
| CallCancel (h : nat)
| CallCreate (h : nat)
| CallPlay (h : nat)
| CallSetTimeout.

(** ** The closure state and the world around it *)

Inductive AnimationDirection := Unknown | In | Out.

Record World := {
  (* the variables captured by [tick] *)
  direction : AnimationDirection;
  animation : option nat;
  last_t : number;
  (* [node.nativeView] *)
  nativeView : View;
  (* every animation [createAnimation] has returned; a handle is its index *)
  animations : list Animation;
  (* [setTimeout] callbacks that have not run yet *)
  timers : nat;
  calls : list Call
}.

Definition set_direction (d : AnimationDirection) (w : World) : World :=
  {| direction := d; animation := animation w; last_t := last_t w;
     nativeView := nativeView w; animations := animations w; timers := timers w;
     calls := calls w |}.

Definition set_animation (a : option nat) (w : World) : World :=
  {| direction := direction w; animation := a; last_t := last_t w;
     nativeView := nativeView w; animations := animations w; timers := timers w;
     calls := calls w |}.

Definition set_last_t (t : number) (w : World) : World :=
  {| direction := direction w; animation := animation w; last_t := t;
     nativeView := nativeView w; animations := animations w; timers := timers w;
     calls := calls w |}.

Definition set_nativeView (v : View) (w : World) : World :=
  {| direction := direction w; animation := animation w; last_t := last_t w;
     nativeView := v; animations := animations w; timers := timers w;
     calls := calls w |}.

Definition set_animations (l : list Animation) (w : World) : World :=
  {| direction := direction w; animation := animation w; last_t := last_t w;
     nativeView := nativeView w; animations := l; timers := timers w;
     calls := calls w |}.

Definition set_timers (n : nat) (w : World) : World :=
  {| direction := direction w; animation := animation w; last_t := last_t w;
     nativeView := nativeView w; animations := animations w; timers := n;
     calls := calls w |}.

Definition log (c : Call) (w : World) : World :=
  {| direction := direction w; animation := animation w; last_t := last_t w;
     nativeView := nativeView w; animations := animations w; timers := timers w;
     calls := calls w ++ [c] |}.

(** The closure right after [asSvelteTransition] returned. *)
Definition initial (v : View) : World :=
  {| direction := Unknown; animation := None; last_t := -1;
     nativeView := v; animations := []; timers := 0%nat; calls := [] |}.

(** ** Statements: state passing with exceptions

    A statement maps the state it runs on to a completion and the state it
    leaves behind; what was written before a throw stays written. *)

Definition Stmt (S A : Type) : Type := S -> Completion A * S.

Definition ret {S A} (a : A) : Stmt S A := fun s => (Normal a, s).

Definition bind {S A B} (m : Stmt S A) (f : A -> Stmt S B) : Stmt S B :=
  fun s => match m s with
           | (Normal a, s') => f a s'
           | (Throw e, s') => (Throw e, s')
           end.

Definition throw {S A} (e : Error) : Stmt S A := fun s => (Throw e, s).

(** [try { m } catch { handler }]. *)
Definition tryCatch {S A} (m : Stmt S A) (handler : Error -> Stmt S A) : Stmt S A :=
  fun s => match m s with
           | (Normal a, s') => (Normal a, s')
           | (Throw e, s') => handler e s'
           end.

Definition gets {S A} (f : S -> A) : Stmt S A := fun s => (Normal (f s), s).

Definition modify {S} (f : S -> S) : Stmt S unit := fun s => (Normal tt, f s).

(** The completion of an expression that has no effect on the state. *)
Definition lift {S A} (c : Completion A) : Stmt S A := fun s => (c, s).

(** Statements of [tick] run on the world. *)
Abbreviation M := (Stmt World).

Declare Scope stmt_scope.
Delimit Scope stmt_scope with stmt.
Notation "a <- m ;; k" := (bind m (fun a => k))
  (at level 100, m at next level, right associativity) : stmt_scope.
Notation "m ;; k" := (bind m (fun _ => k))
  (at level 100, right associativity) : stmt_scope.
Local Open Scope stmt_scope.

(** [keys.forEach(body)]. *)
Fixpoint forEach {S A} (l : list A) (body : A -> Stmt S unit) : Stmt S unit :=
  match l with
  | [] => ret tt
  | a :: rest => body a ;; forEach rest body
  end.

(** *** Facade operations *)

(** [animation.isPlaying] for the handle [h]. *)
Definition playingAt (h : nat) (l : list Animation) : bool :=
  match l !! h with
  | Some a => isPlaying a
  | None => false
  end.

Definition handleIsPlaying (h : nat) (w : World) : bool :=
  playingAt h (animations w).

(** [oldanimation.cancel()]: the animation stops playing. *)
Definition cancel (h : nat) : M unit :=
  modify (fun w =>
    log (CallCancel h)
      (set_animations (alter (set_status Cancelled) h (animations w)) w)).

(** [node.nativeView.createAnimation(nsAnimation)]: a fresh handle, or a
    throw when the host refuses. *)
Definition createAnimation (host : Host) (nsAnimation : AnimationDefinition) : M nat :=
  if createAnimation_throws host then throw NativeError
  else fun w =>
    let h := length (animations w) in
    (Normal h,
     log (CallCreate h)
       (set_animations (animations w ++ [{| definition := nsAnimation; status := Created |}]) w)).

(** [animation.play()] on the handle [h]: an animation that is not playing
    starts; on one that is playing the call changes nothing (the facade
    rejects the promise it returns). *)
Definition play (host : Host) (h : nat) : M unit :=
  if play_throws host then throw NativeError
  else modify (fun w =>
    log (CallPlay h)
      (set_animations
         (alter (fun a => if isPlaying a then a else set_status Playing a) h
            (animations w)) w)).

(** ** What [asSvelteTransition] returns

    [delay] and [duration] are the members of [svelteAnim]; the other fields
    are the constants captured by its [tick]. *)
Record Transition := {
  delay : number;
  duration : number;
  svelteCurve : CubicBezier;
  nativeAnimationProps : number -> list (string * Value);
  applyNativeAnimationProps : option (View -> list (string * Value) -> View)
}.

(** [view._batchUpdate(callback)] from [applyAnimAtTime(time)]: the
    callback runs on [node.nativeView]; a throw inside it passes through. *)
Definition batchUpdate (time : number) (callback : Stmt View unit) : M unit :=
  fun w =>
    (fst (callback (nativeView w)),
     set_nativeView (snd (callback (nativeView w))) (log (CallBatchUpdate time) w)).

(** [setTimeout(() => { animateBlock(); }, 0)]. *)
Definition setTimeout : M unit :=
  modify (fun w => log CallSetTimeout (set_timers (S (timers w)) w)).

(** What can happen to one adapter: the scheduler calls [tick] (with or
    without the second argument), a [setTimeout] callback runs, the facade
    plays an animation to its end, or the native view is created or
    disposed of. *)
Inductive Event :=
| EvTick (host : Host) (t : number) (u : option number)
| EvTimeout (host : Host)
| EvFinished (h : nat)
| EvNativeView (realized : bool).

(** The facade played the handle [h] to its end. *)
Definition finished (h : nat) (w : World) : World :=
  set_animations
    (alter (fun a => match status a with
                     | Playing => set_status Finished a
                     | _ => a
                     end) h (animations w)) w.

(** The option objects of the factories; a member left out is [None]. *)
Record FadeOptions := {
  fade_delay : option number;
  fade_duration : option number
}.

Record FlyOptions := {
  fly_delay : option number;
  fly_duration : option number;
  fly_easing : option CurveArg;
  fly_x : option number;
  fly_y : option number
}.

Record SlideOptions := {
  slide_delay : option number;
  slide_duration : option number;
  slide_easing : option CurveArg
}.

(** * [src/transitions/index.ts] *)

Module Index.
Section WithBezier.
Context `{Bezier}.

Definition asSvelteTransition
    (delay duration : option number) (curve : option CurveArg)
    (nativeAnimationProps : number -> list (string * Value))
    (applyNativeAnimationProps : option (View -> list (string * Value) -> View))
    : Transition :=
  let delay := default 0 delay in
  let duration := default 300 duration in
  let curve := default (CurveName AnimationCurve.linear) curve in
  let svelteCurve :=
    match curve with
    | CurveName name =>
        if String.eqb name AnimationCurve.ease then ease
        else if String.eqb name AnimationCurve.easeIn then ease_in
        else if String.eqb name AnimationCurve.easeOut then ease_out
        else if String.eqb name AnimationCurve.easeInOut then ease_in_out
        else if String.eqb name AnimationCurve.linear then linear
        else linear
    | CurveBezier (cubicBezier cx1 cy1 cx2 cy2) => animation_curve cx1 cy1 cx2 cy2
    | CurveNull => linear
    end in
  {| delay := delay; duration := duration; svelteCurve := svelteCurve;
     nativeAnimationProps := nativeAnimationProps;
     applyNativeAnimationProps := applyNativeAnimationProps |}.

Definition cancelNativeAnimation : M unit :=
  a <- gets animation ;;
  match a with
  | Some oldanimation =>
      playing <- gets (handleIsPlaying oldanimation) ;;
      if playing then
        modify (set_animation None) ;;
        cancel oldanimation
      else ret tt
  | None => ret tt
  end ;;
  modify (set_animation None).

(** The default branch of [applyAnimAtTime]: one key of the definition. *)
Definition applyKey (animDef : list (string * Value)) (k : string) : Stmt View unit :=
  let value := lookupKey animDef k in
  if String.eqb k "scale" then
    vx <- lift (getMember value "x") ;;
    modify (assignView "scaleX" vx) ;;
    vy <- lift (getMember value "y") ;;
    modify (assignView "scaleY" vy)
  else if String.eqb k "translate" then
    vx <- lift (getMember value "x") ;;
    modify (assignView "translateX" vx) ;;
    vy <- lift (getMember value "y") ;;
    modify (assignView "translateY" vy)
  else
    modify (assignStyleOrView k value).

Definition applyAnimAtTime (tr : Transition) (time : number) : M unit :=
  batchUpdate time
    (let animDef := nativeAnimationProps tr time in
     match applyNativeAnimationProps tr with
     | Some apply => modify (fun view => apply view animDef)
     | None => forEach (keys animDef) (applyKey animDef)
     end).

(** [try { animation.play() } catch (error) { Trace.error(error) }]; the
    variable [animation] is read when the block runs. *)
Definition animateBlock (host : Host) : M unit :=
  tryCatch
    (a <- gets animation ;;
     match a with
     | Some h => play host h
     | None => throw TypeError
     end)
    (fun _ => ret tt).

(** "our first frame! are we an in or out" *)
Definition firstFrame (tr : Transition) (t : number) : M unit :=
  d <- gets direction ;;
  match d with
  | Unknown =>
      if Qlt_bool t 0.5 then
        applyAnimAtTime tr 0 ;;
        modify (set_direction In) ;;
        modify (set_last_t 0)
      else
        modify (set_direction Out) ;;
        modify (set_last_t t)
  | _ => ret tt
  end.

(** "have we changed direction?" *)
Definition changedDirection (tr : Transition) (t : number) : M unit :=
  d <- gets direction ;;
  lt <- gets last_t ;;
  match d with
  | In =>
      if Qlt_bool t lt then
        modify (set_direction Out) ;;
        cancelNativeAnimation ;;
        applyAnimAtTime tr t
      else ret tt
  | _ => ret tt
  end ;;
  d <- gets direction ;;
  lt <- gets last_t ;;
  match d with
  | Out =>
      if Qlt_bool lt t then
        modify (set_direction In) ;;
        cancelNativeAnimation ;;
        applyAnimAtTime tr t
      else ret tt
  | _ => ret tt
  end.

(** The request built when [direction] is [Out]. *)
Definition outAnimation (tr : Transition) (t : number)
    (animProps : list (string * Value)) : AnimationDefinition :=
  let forwardCurve :=
    if Qeq_bool t 1 then svelteCurve tr else partialCurveFrom (svelteCurve tr) 0 t in
  let finalCurve := normalizeCurve (reverseCurve forwardCurve) in
  {| ns_target := animProps;
     ns_delay := 0;
     ns_curve := cubicBezier (x1 finalCurve) (y1 finalCurve) (x2 finalCurve) (y2 finalCurve);
     ns_duration := t * duration tr |}.

(** The request built when [direction] is not [Out]. *)
Definition inAnimation (tr : Transition) (t : number)
    (animProps : list (string * Value)) : AnimationDefinition :=
  let forwardCurve :=
    if Qeq_bool t 0 then svelteCurve tr else partialCurveFrom (svelteCurve tr) t 1 in
  let finalCurve := normalizeCurve forwardCurve in
  {| ns_target := animProps;
     ns_delay := 0;
     ns_curve := cubicBezier (x1 finalCurve) (y1 finalCurve) (x2 finalCurve) (y2 finalCurve);
     ns_duration := (1 - t) * duration tr |}.

(** The body of [if (!animation)]: "create a new animation that will cover
    us from now to either t=duration or t=0". *)
Definition newAnimation (tr : Transition) (host : Host) (t : number) : M unit :=
  d <- gets direction ;;
  let target_t := match d with In => 1 | _ => 0 end in
  realized <- gets (fun w => nativeViewProtected (nativeView w)) ;;
  if negb realized then
    applyAnimAtTime tr target_t
  else
    let animProps := nativeAnimationProps tr target_t in
    let nsAnimation :=
      match d with
      | Out => outAnimation tr t animProps
      | _ => inAnimation tr t animProps
      end in
    h <- createAnimation host nsAnimation ;;
    modify (set_animation (Some h)) ;;
    match d with
    | Out => animateBlock host
    | _ => setTimeout
    end.

Definition tick (tr : Transition) (host : Host) (t : number) (u : option number)
    : M unit :=
  let u := default (1 - t) u in
  firstFrame tr t ;;
  changedDirection tr t ;;
  modify (set_last_t t) ;;
  a <- gets animation ;;
  match a with
  | None => newAnimation tr host t
  | Some _ => ret tt
  end.

(** "ported from svelte transitions" *)

Definition fade (node : View) (options : FadeOptions) : Transition :=
  let delay := default 0 (fade_delay options) in
  let duration := default 400 (fade_duration options) in
  let o := opacity node in
  asSvelteTransition (Some delay) (Some duration) (Some (CurveName AnimationCurve.linear))
    (fun t => [("opacity", VNumber (t * o))])
    None.

Definition fly (node : View) (options : FlyOptions) : Transition :=
  let delay := default 0 (fly_delay options) in
  let duration := default 400 (fly_duration options) in
  let easing := default (CurveName AnimationCurve.easeOut) (fly_easing options) in
  let x := default 0 (fly_x options) in
  let y := default 0 (fly_y options) in
  let opacity := opacity node in
  let translateX := translateX node in
  let translateY := translateY node in
  asSvelteTransition (Some delay) (Some duration) (Some easing)
    (fun t => [("opacity", VNumber (t * opacity));
               ("translate", VPair {| x := translateX + (1 - t) * x;
                                      y := translateY + (1 - t) * y |})])
    None.

Definition slide (node : View) (options : SlideOptions) : Transition :=
  let delay := default 0 (slide_delay options) in
  let duration := default 400 (slide_duration options) in
  let easing := default (CurveName AnimationCurve.easeOut) (slide_easing options) in
  let height := effectiveHeight node in
  let scaleX := scaleX node in
  let scaleY := scaleY node in
  let translateX := translateX node in
  let translateY := translateY node in
  asSvelteTransition (Some delay) (Some duration) (Some easing)
    (fun t => [("scale", VPair {| x := scaleX; y := t * scaleY |});
               ("translate", VPair {| x := translateX;
                                      y := translateY - t * 0.5 * height |})])
    None.

(** One event.  An exception thrown by [tick] reaches the scheduler; the
    closure keeps what was written before the throw. *)
Definition step (tr : Transition) (ev : Event) (w : World) : World :=
  match ev with
  | EvTick host t u => snd (tick tr host t u w)
  | EvTimeout host =>
      match timers w with
      | O => w
      | S n => snd (animateBlock host (set_timers n w))
      end
  | EvFinished h => finished h w
  | EvNativeView b => set_nativeView (set_nativeViewProtected b (nativeView w)) w
  end.

Definition run (tr : Transition) (evs : list Event) (w : World) : World :=
  fold_left (fun w ev => step tr ev w) evs w.

End WithBezier.
End Index.

(** * The second revision of the transitions module *)

Module Rev.
Section WithBezier.
Context `{Bezier}.

Definition asSvelteTransition
    (delay duration : option number) (curve : option CurveArg)
    (nativeAnimationProps : number -> list (string * Value))
    (applyNativeAnimationProps : option (View -> list (string * Value) -> View))
    : Transition :=
  let delay := default 0 delay in
  let duration := default 300 duration in
  let curve := default (CurveName AnimationCurve.linear) curve in
  let svelteCurve :=
    match curve with
    | CurveName name =>
        if String.eqb name AnimationCurve.ease then ease
        else if String.eqb name AnimationCurve.easeIn then ease_in
        else if String.eqb name AnimationCurve.easeOut then ease_out
        else if String.eqb name AnimationCurve.easeInOut then ease_in_out
        else if String.eqb name AnimationCurve.linear then linear
        else linear
    | CurveBezier (cubicBezier cx1 cy1 cx2 cy2) => animation_curve cx1 cy1 cx2 cy2
    | CurveNull => linear
    end in
  {| delay := delay; duration := duration; svelteCurve := svelteCurve;
     nativeAnimationProps := nativeAnimationProps;
     applyNativeAnimationProps := applyNativeAnimationProps |}.

Definition cancelNativeAnimation : M unit :=
  a <- gets animation ;;
  match a with
  | Some oldanimation =>
      playing <- gets (handleIsPlaying oldanimation) ;;
      if playing then
        modify (set_animation None) ;;
        cancel oldanimation
      else ret tt
  | None => ret tt
  end ;;
  modify (set_animation None).

(** The default branch of [applyAnimAtTime]: one key of the definition. *)
Definition applyKey (animDef : list (string * Value)) (k : string) : Stmt View unit :=
  let value := lookupKey animDef k in
  if String.eqb k "scale" then
    s <- lift (getMember value "scale") ;;
    vx <- lift (getMember s "x") ;;
    modify (assignView "scaleX" vx) ;;
    s <- lift (getMember value "scale") ;;
    vy <- lift (getMember s "y") ;;
    modify (assignView "scaleY" vy)
  else if String.eqb k "translate" then
    s <- lift (getMember value "translate") ;;
    vx <- lift (getMember s "x") ;;
    modify (assignView "translateX" vx) ;;
    s <- lift (getMember value "translate") ;;
    vy <- lift (getMember s "y") ;;
    modify (assignView "translateY" vy)
  else
    modify (assignStyleOrView k value).

Definition applyAnimAtTime (tr : Transition) (time : number) : M unit :=
  batchUpdate time
    (let animDef := nativeAnimationProps tr time in
     match applyNativeAnimationProps tr with
     | Some apply => modify (fun view => apply view animDef)
     | None => forEach (keys animDef) (applyKey animDef)
     end).

(** [try { animation.play() } catch (error) { Trace.error(error) }]; the
    variable [animation] is read when the block runs. *)
Definition animateBlock (host : Host) : M unit :=
  tryCatch
    (a <- gets animation ;;
     match a with
     | Some h => play host h
     | None => throw TypeError
     end)
    (fun _ => ret tt).

(** "our first frame! are we an in or out" *)
Definition firstFrame (tr : Transition) (t u : number) : M unit :=
  d <- gets direction ;;
  match d with
  | Unknown =>
      if Qlt_bool 0.5 u then
        applyAnimAtTime tr 0 ;;
        modify (set_direction In) ;;
        modify (set_last_t 0)
      else
        modify (set_direction Out) ;;
        modify (set_last_t t)
  | _ => ret tt
  end.

(** "have we changed direction?" *)
Definition changedDirection (tr : Transition) (t : number) : M unit :=
  d <- gets direction ;;
  lt <- gets last_t ;;
  match d with
  | In =>
      if Qlt_bool t lt then
        modify (set_direction Out) ;;
        cancelNativeAnimation ;;
        applyAnimAtTime tr t
      else ret tt
  | _ => ret tt
  end ;;
  d <- gets direction ;;
  lt <- gets last_t ;;
  match d with
  | Out =>
      if Qlt_bool lt t then
        modify (set_direction In) ;;
        cancelNativeAnimation ;;
        applyAnimAtTime tr t
      else ret tt
  | _ => ret tt
  end.

(** The request built when [direction] is [Out]. *)
Definition outAnimation (tr : Transition) (u : number)
    (animProps : list (string * Value)) : AnimationDefinition :=
  let effectiveT := u in
  let forwardCurve :=
    if Qeq_bool effectiveT 1 then svelteCurve tr
    else partialCurveFrom (svelteCurve tr) 0 effectiveT in
  let finalCurve := normalizeCurve (reverseCurve forwardCurve) in
  {| ns_target := animProps;
     ns_delay := 0;
     ns_curve := cubicBezier (x1 finalCurve) (y1 finalCurve) (x2 finalCurve) (y2 finalCurve);
     ns_duration := effectiveT * duration tr |}.

(** The request built when [direction] is not [Out]. *)
Definition inAnimation (tr : Transition) (t : number)
    (animProps : list (string * Value)) : AnimationDefinition :=
  let forwardCurve :=
    if Qeq_bool t 0 then svelteCurve tr else partialCurveFrom (svelteCurve tr) t 1 in
  let finalCurve := normalizeCurve forwardCurve in
  {| ns_target := animProps;
     ns_delay := 0;
     ns_curve := cubicBezier (x1 finalCurve) (y1 finalCurve) (x2 finalCurve) (y2 finalCurve);
     ns_duration := (1 - t) * duration tr |}.

(** The body of [if (!animation)]: "create a new animation that will cover
    us from now to either t=duration or t=0".  When [createAnimation] throws
    the error is caught and [tick] returns. *)
Definition newAnimation (tr : Transition) (host : Host) (t u : number) : M unit :=
  d <- gets direction ;;
  let target_t := match d with In => 1 | _ => 0 end in
  realized <- gets (fun w => nativeViewProtected (nativeView w)) ;;
  if negb realized then
    applyAnimAtTime tr target_t
  else
    let animProps := nativeAnimationProps tr target_t in
    let nsAnimation :=
      match d with
      | Out => outAnimation tr u animProps
      | _ => inAnimation tr t animProps
      end in
    created <- tryCatch
                 (h <- createAnimation host nsAnimation ;;
                  modify (set_animation (Some h)) ;;
                  ret true)
                 (fun _ => ret false) ;;
    if created then
      match d with
      | Out => animateBlock host
      | _ => setTimeout
      end
    else ret tt.

Definition tick (tr : Transition) (host : Host) (t : number) (u : option number)
    : M unit :=
  let u := default (1 - t) u in
  firstFrame tr t u ;;
  changedDirection tr t ;;
  modify (set_last_t t) ;;
  a <- gets animation ;;
  match a with
  | None => newAnimation tr host t u
  | Some _ => ret tt
  end.

(** "ported from svelte transitions" *)

Definition fade (node : View) (options : FadeOptions) : Transition :=
  let delay := default 0 (fade_delay options) in
  let duration := default 400 (fade_duration options) in
  let o := opacity node in
  asSvelteTransition (Some delay) (Some duration) (Some (CurveName AnimationCurve.linear))
    (fun t => [("opacity", VNumber (t * o))])
    None.

Definition fly (node : View) (options : FlyOptions) : Transition :=
  let delay := default 0 (fly_delay options) in
  let duration := default 400 (fly_duration options) in
  let easing := default (CurveName AnimationCurve.easeOut) (fly_easing options) in
  let x := default 0 (fly_x options) in
  let y := default 0 (fly_y options) in
  let opacity := opacity node in
  let translateX := translateX node in
  let translateY := translateY node in
  asSvelteTransition (Some delay) (Some duration) (Some easing)
    (fun t => [("opacity", VNumber (t * opacity));
               ("translate", VPair {| x := translateX + (1 - t) * x;
                                      y := translateY + (1 - t) * y |})])
    None.

Definition slide (node : View) (options : SlideOptions) : Transition :=
  let delay := default 0 (slide_delay options) in
  let duration := default 400 (slide_duration options) in
  let easing := default (CurveName AnimationCurve.easeOut) (slide_easing options) in
  let height := effectiveHeight node in
  let scaleX := scaleX node in
  let scaleY := scaleY node in
  let translateX := translateX node in
  let translateY := translateY node in
  asSvelteTransition (Some delay) (Some duration) (Some easing)
    (fun t => [("scale", VPair {| x := scaleX; y := t * scaleY |});
               ("translate", VPair {| x := translateX;
                                      y := translateY - t * 0.5 * height |})])
    None.

(** One event.  An exception thrown by [tick] reaches the scheduler; the
    closure keeps what was written before the throw. *)
Definition step (tr : Transition) (ev : Event) (w : World) : World :=
  match ev with
  | EvTick host t u => snd (tick tr host t u w)
  | EvTimeout host =>
      match timers w with
      | O => w
      | S n => snd (animateBlock host (set_timers n w))
      end
  | EvFinished h => finished h w
  | EvNativeView b => set_nativeView (set_nativeViewProtected b (nativeView w)) w
  end.

Definition run (tr : Transition) (evs : list Event) (w : World) : World :=
  fold_left (fun w ev => step tr ev w) evs w.

End WithBezier.
End Rev.

(** * Running the adapter

    An instance of the bezier parameters for concrete runs: the presets are
    the CSS timing functions, a curve is reversed by reflecting its control
    points, and a cut keeps the control points and moves them into the cut
    interval.  No theorem about the adapter depends on this instance. *)

#[local] Instance exampleBezier : Bezier := {|
  linear := {| x1 := 0; y1 := 0; x2 := 1; y2 := 1 |};
  ease := {| x1 := 0.25; y1 := 0.1; x2 := 0.25; y2 := 1 |};
  ease_in := {| x1 := 0.42; y1 := 0; x2 := 1; y2 := 1 |};
  ease_out := {| x1 := 0; y1 := 0; x2 := 0.58; y2 := 1 |};
  ease_in_out := {| x1 := 0.42; y1 := 0; x2 := 0.58; y2 := 1 |};
  animation_curve := fun a b c d => {| x1 := a; y1 := b; x2 := c; y2 := d |};
  partialCurveFrom := fun c t0 t1 =>
    {| x1 := t0 + (t1 - t0) * x1 c; y1 := y1 c;
       x2 := t0 + (t1 - t0) * x2 c; y2 := y2 c |};
  reverseCurve := fun c =>
    {| x1 := 1 - x2 c; y1 := 1 - y2 c; x2 := 1 - x1 c; y2 := 1 - y1 c |};
  normalizeCurve := fun c => c
|}.

Definition exampleView (realized : bool) : View :=
  {| opacity := 1; translateX := 0; translateY := 0; scaleX := 1; scaleY := 1;
     effectiveHeight := 200; style := Some ∅; expando := ∅;
     nativeViewProtected := realized |}.

Definition quiet : Host := {| createAnimation_throws := false; play_throws := false |}.

Definition flyOptions : FlyOptions :=
  {| fly_delay := None; fly_duration := None; fly_easing := None;
     fly_x := Some 100; fly_y := Some 0 |}.

Definition fadeOptions : FadeOptions := {| fade_delay := None; fade_duration := None |}.


(** * Notions used by the statements *)

Section Notions.
Context `{Bezier}.

(** The view left by the callback of [applyAnimAtTime(time)] in index.ts. *)
Definition Index_mapView (tr : Transition) (time : number) (view : View) : View :=
  snd (let animDef := nativeAnimationProps tr time in
       match applyNativeAnimationProps tr with
       | Some apply => modify (fun view => apply view animDef)
       | None => forEach (keys animDef) (Index.applyKey animDef)
       end view).

(** The completion of, and the view left by, the callback of
    [applyAnimAtTime(time)] in the second revision. *)
Definition Rev_outcome (tr : Transition) (time : number) (view : View) : Completion unit :=
  fst (let animDef := nativeAnimationProps tr time in
       match applyNativeAnimationProps tr with
       | Some apply => modify (fun view => apply view animDef)
       | None => forEach (keys animDef) (Rev.applyKey animDef)
       end view).

Definition Rev_mapView (tr : Transition) (time : number) (view : View) : View :=
  snd (let animDef := nativeAnimationProps tr time in
       match applyNativeAnimationProps tr with
       | Some apply => modify (fun view => apply view animDef)
       | None => forEach (keys animDef) (Rev.applyKey animDef)
       end view).

(** The definition at [time] has no [scale] and no [translate] entry, or an
    override maps it. *)
Definition Rev_applies (tr : Transition) (time : number) : bool :=
  match applyNativeAnimationProps tr with
  | Some _ => true
  | None =>
      negb (existsb (fun k => String.eqb k "scale" || String.eqb k "translate")
              (keys (nativeAnimationProps tr time)))
  end.

(** [CoreTypes.AnimationCurve.cubicBezier(c.x1, c.y1, c.x2, c.y2)]. *)
Definition controlPoints (c : CubicBezier) : CubicBezierAnimationCurve :=
  cubicBezier (x1 c) (y1 c) (x2 c) (y2 c).

(** The calls [cancelNativeAnimation] makes: [cancel] on the stored handle
    when it is playing, nothing otherwise. *)
Definition cancelCalls (w : World) : list Call :=
  match animation w with
  | Some h => if handleIsPlaying h w then [CallCancel h] else []
  | None => []
  end.

(** The status of the handle [h]. *)
Definition statusOf (w : World) (h : nat) : option AnimationStatus :=
  status <$> animations w !! h.

(** Every handle that is playing is the stored one. *)
Definition storedPlaying (w : World) : Prop :=
  forall h, playingAt h (animations w) = true -> animation w = Some h.

(** [h] is live: created, and neither cancelled nor played to its end. *)
Definition liveAt (h : nat) (l : list Animation) : bool :=
  match l !! h with
  | Some a => isLive a
  | None => false
  end.

(** The built-in mapper as the specification words it, for one entry of
    the definition: a [scale] pair goes to [scaleX] and [scaleY], a
    [translate] pair to [translateX] and [translateY], any other entry is
    assigned under its key on the style of the view, or on the view itself
    when it has no style. *)
Definition specApplyEntry (view : View) (entry : string * Value) : View :=
  let (k, value) := entry in
  if String.eqb k "scale" then
    match value with
    | VPair p =>
        {| opacity := opacity view; translateX := translateX view;
           translateY := translateY view; scaleX := x p; scaleY := y p;
           effectiveHeight := effectiveHeight view; style := style view;
           expando := expando view; nativeViewProtected := nativeViewProtected view |}
    | _ => view
    end
  else if String.eqb k "translate" then
    match value with
    | VPair p =>
        {| opacity := opacity view; translateX := x p; translateY := y p;
           scaleX := scaleX view; scaleY := scaleY view;
           effectiveHeight := effectiveHeight view; style := style view;
           expando := expando view; nativeViewProtected := nativeViewProtected view |}
    | _ => view
    end
  else assignStyleOrView k (Some value) view.

(** [animDef.translate], when it is a pair. *)
Definition translateOf (animDef : list (string * Value)) : option Pair :=
  match lookupKey animDef "translate" with
  | Some (VPair p) => Some p
  | _ => None
  end.

(** The request recorded for the handle [h]. *)
Definition definitionOf (w : World) (h : nat) : option AnimationDefinition :=
  definition <$> animations w !! h.

End Notions.

(** * Concrete adapters and runs *)

(** [fade] and [fly] (with [x = 100], [y = 0]) on the example view, in both
    revisions. *)
Definition indexFade : Transition := Index.fade (exampleView true) fadeOptions.
Definition revFade : Transition := Rev.fade (exampleView true) fadeOptions.
Definition indexFly : Transition := Index.fly (exampleView true) flyOptions.
Definition revFly : Transition := Rev.fly (exampleView true) flyOptions.

(** An adapter whose definition is [{ scale: { x: 2, y: 3 } }] at every
    progress, with the built-in mapper. *)
Definition scaleDefinition (t : number) : list (string * Value) :=
  [("scale", VPair {| x := 2; y := 3 |})].
Definition indexScale : Transition :=
  Index.asSvelteTransition None None None scaleDefinition None.
Definition revScale : Transition :=
  Rev.asSvelteTransition None None None scaleDefinition None.

(** An intro that is turned back before the deferred [play] has run:
    [tick(0.3)], then [tick(0.1)]. *)
Definition turnedBack : World :=
  Index.run indexFade [EvTick quiet 0.3 None; EvTick quiet 0.1 None]
    (initial (exampleView true)).

(** The same intro, played, then turned back: [tick(0, 1)], the deferred
    [play], [tick(0.3)], [tick(0.1)]. *)
Definition playedThenTurnedBack : list Event :=
  [EvTick quiet 0 (Some 1); EvTimeout quiet; EvTick quiet 0.3 None; EvTick quiet 0.1 None].


(** * Notions used by the further properties *)

(** [a <= b] on numbers, as a test. *)
Definition Qle_test (a b : number) : bool := negb (Qlt_bool b a).

(** Every tick of [evs] carries a progress at or above the one before it,
    the first one at or above [lt]. *)
Fixpoint ascending (lt : number) (evs : list Event) : bool :=
  match evs with
  | [] => true
  | EvTick _ t _ :: rest => Qle_test lt t && ascending t rest
  | _ :: rest => ascending lt rest
  end.

(** Every tick of [evs] carries a progress at or below the one before it,
    the first one at or below [lt]. *)
Fixpoint descending (lt : number) (evs : list Event) : bool :=
  match evs with
  | [] => true
  | EvTick _ t _ :: rest => Qle_test t lt && descending t rest
  | _ :: rest => descending lt rest
  end.

(** Between [w] and [w'] one handle was created with the request [D]; it
    is the stored one and has not been played. *)
Definition createdWith (D : AnimationDefinition) (w w' : World) : Prop :=
  animations w' !! length (animations w) = Some {| definition := D; status := Created |} /\
  length (animations w') = S (length (animations w)) /\
  animation w' = Some (length (animations w)).

(** The call is a batched update of the view. *)
Definition isBatchUpdate (c : Call) : bool :=
  match c with CallBatchUpdate _ => true | _ => false end.

(** The stored handle, if any, is one the facade has returned. *)
Definition storedValid (w : World) : Prop :=
  forall h, animation w = Some h -> (h < length (animations w))%nat.

(** The handle [h] was created, has not been played, and is not the stored
    one. *)
Definition orphaned (h : nat) (w : World) : Prop :=
  storedValid w /\ statusOf w h = Some Created /\ animation w <> Some h.

(** One handle has been created, with the request [D]; it is the stored one
    and the direction is [d]. *)
Definition oneAnimation (d : AnimationDirection) (D : AnimationDefinition) (w : World) : Prop :=
  direction w = d /\ animation w = Some 0%nat /\ map definition (animations w) = [D].

(** The event is not a tick that reverses the direction [d] at [lt]. *)
Definition keepsDirection (d : AnimationDirection) (lt : number) (ev : Event) : bool :=
  match ev, d with
  | EvTick _ t _, In => Qle_test lt t
  | EvTick _ t _, Out => Qle_test t lt
  | EvTick _ _ _, Unknown => false
  | _, _ => true
  end.

(** The keys of the definition are among those [NativeAnimationDefinition]
    declares: [opacity], [backgroundColor], [translate], [scale] and
    [rotate]. *)
Definition declaredKeys (animDef : list (string * Value)) : bool :=
  forallb (fun k => existsb (String.eqb k)
                      ["opacity"; "backgroundColor"; "translate"; "scale"; "rotate"])
    (keys animDef).

(** What the built-in mapper leaves alone: the readiness flag and the
    measured height of the view, and, on a view that has a style object,
    that object's presence and the own properties of the view other than
    its opacity, scale and translation. *)
Definition mapperKeeps (v v' : View) : Prop :=
  nativeViewProtected v' = nativeViewProtected v /\
  effectiveHeight v' = effectiveHeight v /\
  (is_Some (style v) -> is_Some (style v') /\ expando v' = expando v).

(** [view.style[k]], when the view has a style object. *)
Definition styleOf (v : View) (k : string) : option Value :=
  match style v with
  | Some s => s !! k
  | None => None
  end.

(** * Array properties of a native element

    [setOnArrayProp] and [removeFromArrayProp] of the native element node
    module.  The parent is an object whose properties hold a falsy value,
    a value that is not an array, or a reference to an array: a plain
    [Array] or an [ObservableArray], kept in a heap so that a reference
    held elsewhere sees what is done to the array in place.  The elements
    are native elements, compared by identity; they are numbered.
    [log.debug] calls are left out. *)

Module ArrayProps.

Record ArrayObject := {
  observable : bool;      (* [instanceof ObservableArray] *)
  items : list nat
}.

Inductive PropValue :=
| Falsy                   (* [undefined], [null]: [!current] *)
| NotArray                (* truthy, without [push] and [splice] *)
| ArrayRef (r : nat).

Record Store := {
  arrays : list ArrayObject;          (* the heap; a reference is an index *)
  parent : gmap string PropValue      (* [parent[propName]]; a missing key is [undefined] *)
}.

(** [parent[propName] = <a new array object>]. *)
Definition assignNew (propName : string) (a : ArrayObject) (s : Store) : Store :=
  {| arrays := arrays s ++ [a];
     parent := <[propName := ArrayRef (length (arrays s))]> (parent s) |}.

(** The array at [r] changed in place. *)
Definition mutate (r : nat) (l : list nat) (s : Store) : Store :=
  {| arrays := <[r := {| observable := true; items := l |}]> (arrays s);
     parent := parent s |}.

(** [arr.splice(index, 0, value)], [index >= 0]: past the end it appends. *)
Definition spliceInsert (index : nat) (value : nat) (l : list nat) : list nat :=
  take index l ++ value :: drop index l.

(** [arr.splice(idx, 1)]. *)
Definition spliceDelete (idx : nat) (l : list nat) : list nat :=
  take idx l ++ drop (S idx) l.

(** [arr.indexOf(value)]: the first position, [None] for [-1]. *)
Fixpoint indexOf (value : nat) (l : list nat) : option nat :=
  match l with
  | [] => None
  | a :: rest => if Nat.eqb a value then Some 0%nat else S <$> indexOf value rest
  end.

Definition setOnArrayProp (propName : string) (value : nat) (index : Z)
    (build : option (nat -> ArrayObject)) (s : Store) : Store :=
  match parent s !! propName with
  | Some (ArrayRef r) =>
      match arrays s !! r with
      | Some current =>
          if observable current then
            if (-1 <? index)%Z then
              mutate r (spliceInsert (Z.to_nat index) value (items current)) s
            else
              mutate r (items current ++ [value]) s
          else
            if (-1 <? index)%Z then
              assignNew propName
                {| observable := false;
                   items := spliceInsert (Z.to_nat index) value (items current) |} s
            else
              assignNew propName
                {| observable := false; items := items current ++ [value] |} s
      | None => s
      end
  | _ =>
      assignNew propName
        (match build with
         | Some b => b value
         | None => {| observable := false; items := [value] |}
         end) s
  end.

Definition removeFromArrayProp (propName : string) (value : nat) (s : Store) : Store :=
  match parent s !! propName with
  | Some (ArrayRef r) =>
      match arrays s !! r with
      | Some current =>
          match indexOf value (items current) with
          | None => s
          | Some idx =>
              if observable current then
                mutate r (spliceDelete idx (items current)) s
              else
                assignNew propName
                  {| observable := false; items := spliceDelete idx (items current) |} s
          end
      | None => s
      end
  | _ => s
  end.

(** [(v) => new ObservableArray(v)], the [build] that [onInsertedChild]
    passes for an observable array property.  The constructor is
    NativeScript's: called with one native element it gives an observable
    array that holds just that element. *)
Definition buildObservable (v : nat) : ArrayObject :=
  {| observable := true; items := [v] |}.

(** The array [parent[propName]] refers to. *)
Definition readArray (s : Store) (propName : string) : option ArrayObject :=
  match parent s !! propName with
  | Some (ArrayRef r) => arrays s !! r
  | _ => None
  end.

(** A store with a plain array [[1; 2; 3]] under ["items"] and an
    observable array [[4; 5]] under ["columns"]. *)
Definition exampleStore : Store :=
  {| arrays := [{| observable := false; items := [1; 2; 3]%nat |};
                {| observable := true; items := [4; 5]%nat |}];
     parent := <["items" := ArrayRef 0]> (<["columns" := ArrayRef 1]> ∅) |}.

End ArrayProps.

(** * Further concrete runs *)

(** A host whose [createAnimation] throws. *)
Definition refusing : Host := {| createAnimation_throws := true; play_throws := false |}.

(** The intro of [fade] right after its first tick [tick(0, 1)]. *)
Definition introStarted : World :=
  snd (Index.tick indexFade quiet 0 (Some 1) (initial (exampleView true))).

(** An intro and an outro of [fade] whose first tick found a host that
    refused to create the animation. *)
Definition introAbandoned : World :=
  snd (Rev.tick revFade refusing 0 (Some 1) (initial (exampleView true))).
Definition outroAbandoned : World :=
  snd (Rev.tick revFade refusing 1 (Some 0) (initial (exampleView true))).

(** The intro of [fade] on a view that is not realized, after [tick(0, 1)]. *)
Definition introUnrealized : World :=
  snd (Index.tick (Index.fade (exampleView false) fadeOptions) quiet 0 (Some 1)
         (initial (exampleView false))).

(** The ticks that follow [tick(0, 1)] in an intro, and those that follow
    [tick(1, 0)] in an outro. *)
Definition introTicks : list Event :=
  [EvTick quiet 0.2 (Some 0.8); EvTimeout quiet; EvTick quiet 0.5 (Some 0.5);
   EvTick quiet 1 (Some 0); EvFinished 0].
Definition outroTicks : list Event :=
  [EvTick quiet 0.7 (Some 0.3); EvTick quiet 0 (Some 1); EvFinished 0].

(** What happens after an intro was turned back at once. *)
Definition afterTurnedBack : list Event :=
  [EvTimeout quiet; EvTick quiet 0.05 None; EvFinished 1; EvTick quiet 0.4 None;
   EvTimeout quiet; EvFinished 2].

(** * Facts *)

Local Open Scope Q_scope.
Local Open Scope stmt_scope.

Lemma Qlt_bool_iff a b : Qlt_bool a b = true <-> a < b.
Proof.
  unfold Qlt_bool. rewrite Qlt_alt. destruct (a ?= b); split; congruence.
Qed.

Lemma Qlt_bool_false_iff a b : Qlt_bool a b = false <-> ~ a < b.
Proof.
  rewrite <- Qlt_bool_iff. destruct (Qlt_bool a b); split; congruence.
Qed.

Lemma Qlt_bool_asym a b : Qlt_bool a b = true -> Qlt_bool b a = false.
Proof.
  intros Hab. apply Qlt_bool_iff in Hab. apply Qlt_bool_false_iff.
  intros Hba. exact (Qlt_irrefl _ (Qlt_trans _ _ _ Hab Hba)).
Qed.

Lemma Qlt_bool_irrefl a : Qlt_bool a a = false.
Proof. apply Qlt_bool_false_iff, Qlt_irrefl. Qed.

(** ** Reading members and iterating over keys *)

Lemma getMember_some v k : exists r, getMember (Some v) k = Normal r.
Proof.
  destruct v; simpl; eauto.
  destruct (String.eqb k "x"); eauto. destruct (String.eqb k "y"); eauto.
Qed.

Lemma lookupKey_keys (animDef : list (string * Value)) k :
  List.In k (keys animDef) -> exists v, lookupKey animDef k = Some v.
Proof.
  induction animDef as [|[k' v'] rest IH]; simpl; [tauto|].
  intros [->|Hin].
  - rewrite String.eqb_refl. eauto.
  - destruct (String.eqb k' k); eauto.
Qed.

Lemma forEach_normal {S A} (l : list A) (body : A -> Stmt S unit) :
  (forall a s, List.In a l -> fst (body a s) = Normal tt) ->
  forall s, fst (forEach l body s) = Normal tt.
Proof.
  induction l as [|a rest IH]; intros Hbody s; simpl; [reflexivity|].
  unfold bind. specialize (Hbody a s (or_introl eq_refl)) as Ha.
  destruct (body a s) as [[[]|e] s']; simpl in Ha; [|discriminate].
  apply IH. intros; apply Hbody; right; assumption.
Qed.

(** A loop whose body throws on some of the elements, and completes on the
    others, throws as soon as it meets one of the former. *)
Lemma forEach_throws {S A} (l : list A) (body : A -> Stmt S unit) (bad : A -> bool) e :
  (forall a s, List.In a l -> bad a = true -> fst (body a s) = Throw e) ->
  (forall a s, List.In a l -> bad a = false -> fst (body a s) = Normal tt) ->
  existsb bad l = true ->
  forall s, fst (forEach l body s) = Throw e.
Proof.
  induction l as [|a rest IH]; intros Hbad Hgood Hex s; simpl in *; [discriminate|].
  unfold bind. destruct (bad a) eqn:Ha.
  - pose proof (Hbad a s (or_introl eq_refl) Ha) as Hthrow.
    destruct (body a s) as [[[]|e'] s']; simpl in *; congruence.
  - pose proof (Hgood a s (or_introl eq_refl) Ha) as Hnormal.
    destruct (body a s) as [[[]|e'] s']; simpl in *; [|discriminate].
    apply IH; [intros; apply Hbad; auto | intros; apply Hgood; auto | assumption].
Qed.

Section Facts.
Context `{Bezier}.

(** ** [applyAnimAtTime] in index.ts always completes *)

Lemma Index_applyKey_normal animDef k view :
  List.In k (keys animDef) -> fst (Index.applyKey animDef k view) = Normal tt.
Proof.
  intros Hin. destruct (lookupKey_keys _ _ Hin) as [v Hv].
  unfold Index.applyKey. rewrite Hv.
  destruct (getMember_some v "x") as [rx Hx], (getMember_some v "y") as [ry Hy].
  destruct (String.eqb k "scale"); [|destruct (String.eqb k "translate")];
    unfold bind, lift, modify; rewrite ?Hx, ?Hy; reflexivity.
Qed.

Lemma Index_applyAnimAtTime_eq tr time w :
  Index.applyAnimAtTime tr time w =
  (Normal tt,
   set_nativeView (Index_mapView tr time (nativeView w)) (log (CallBatchUpdate time) w)).
Proof.
  unfold Index.applyAnimAtTime, batchUpdate, Index_mapView. f_equal.
  destruct (applyNativeAnimationProps tr); [reflexivity|].
  apply forEach_normal. intros; apply Index_applyKey_normal; assumption.
Qed.

(** ** [applyAnimAtTime] in the second revision *)

Lemma Rev_applyAnimAtTime_eq tr time w :
  Rev.applyAnimAtTime tr time w =
  (Rev_outcome tr time (nativeView w),
   set_nativeView (Rev_mapView tr time (nativeView w)) (log (CallBatchUpdate time) w)).
Proof. reflexivity. Qed.

Lemma Rev_applyKey_pair animDef k view :
  List.In k (keys animDef) -> k = "scale" \/ k = "translate" ->
  fst (Rev.applyKey animDef k view) = Throw TypeError.
Proof.
  intros Hin Hk. destruct (lookupKey_keys _ _ Hin) as [v Hv].
  unfold Rev.applyKey. rewrite Hv.
  destruct Hk as [-> | ->]; destruct v as [n|[px py]|c]; reflexivity.
Qed.

Lemma Rev_applyKey_other animDef k view :
  k <> "scale" -> k <> "translate" ->
  fst (Rev.applyKey animDef k view) = Normal tt.
Proof.
  intros H1 H2. unfold Rev.applyKey.
  apply String.eqb_neq in H1, H2. rewrite H1, H2. reflexivity.
Qed.

Lemma Rev_outcome_applies tr time view :
  Rev_applies tr time = true -> Rev_outcome tr time view = Normal tt.
Proof.
  unfold Rev_applies, Rev_outcome. destruct (applyNativeAnimationProps tr); [reflexivity|].
  intros Hk. apply negb_true_iff in Hk.
  apply forEach_normal. intros k s Hin.
  apply Rev_applyKey_other; intros ->;
    (assert (true = false) as Hf; [|discriminate Hf]);
    rewrite <- Hk; symmetry; apply existsb_exists; eexists; split; eauto.
Qed.

Lemma Rev_outcome_throws tr time view :
  Rev_applies tr time = false -> Rev_outcome tr time view = Throw TypeError.
Proof.
  unfold Rev_applies, Rev_outcome. destruct (applyNativeAnimationProps tr); [discriminate|].
  intros Hk. apply negb_false_iff in Hk.
  apply forEach_throws
    with (bad := fun k => String.eqb k "scale" || String.eqb k "translate");
    [| |assumption].
  - intros a s Hin Ha. apply Rev_applyKey_pair; [assumption|].
    apply orb_true_iff in Ha. destruct Ha as [Ha|Ha]; apply String.eqb_eq in Ha; tauto.
  - intros a s _ Ha. apply orb_false_iff in Ha. destruct Ha as [H1 H2].
    apply Rev_applyKey_other; apply String.eqb_neq; assumption.
Qed.

End Facts.

(** ** Running [tick] symbolically *)

Ltac unfold_tick :=
  unfold Index.tick, Index.firstFrame, Index.changedDirection, Index.newAnimation,
    Index.cancelNativeAnimation, Index.animateBlock,
    Rev.tick, Rev.firstFrame, Rev.changedDirection, Rev.newAnimation,
    Rev.cancelNativeAnimation, Rev.animateBlock,
    setTimeout, createAnimation, play, cancel, handleIsPlaying in *;
  unfold bind, gets, modify, ret, throw, tryCatch in *.

Ltac tick_simpl :=
  cbn -[Qlt_bool Qeq_bool Qplus Qminus Qmult Index.applyAnimAtTime Rev.applyAnimAtTime
        Index.outAnimation Index.inAnimation Rev.outAnimation Rev.inAnimation
        playingAt lookup alter] in *;
  rewrite ?length_alter in *.

Ltac tick_case :=
  match goal with
  | H : ?b = _ |- context [if ?b then _ else _] => rewrite H
  | H : ?o = _ |- context [match ?o with Some _ => _ | None => _ end] => rewrite H
  | H : Qlt_bool ?a ?b = true |- context [Qlt_bool ?b ?a] => rewrite (Qlt_bool_asym _ _ H)
  | |- context [Qlt_bool ?a ?a] => rewrite (Qlt_bool_irrefl a)
  | |- context [Index.applyAnimAtTime _ _ _] => rewrite Index_applyAnimAtTime_eq
  | |- context [Rev.applyAnimAtTime _ _ _] => rewrite Rev_applyAnimAtTime_eq
  | H : Rev_applies ?tr ?time = true |- context [Rev_outcome ?tr ?time ?v] =>
      rewrite (Rev_outcome_applies tr time v H)
  | H : Rev_applies ?tr ?time = false |- context [Rev_outcome ?tr ?time ?v] =>
      rewrite (Rev_outcome_throws tr time v H)
  | |- context [match Rev_outcome ?tr ?time ?v with _ => _ end] =>
      let E := fresh "Eout" in destruct (Rev_outcome tr time v) as [[]|?] eqn:E
  | |- context [if negb ?b then _ else _] => let E := fresh "E" in destruct b eqn:E
  | |- context [if ?b then _ else _] => let E := fresh "E" in destruct b eqn:E
  | |- context [match ?o with Some _ => _ | None => _ end] =>
      let E := fresh "E" in destruct o eqn:E
  end.

Ltac tick_run := unfold_tick; tick_simpl; repeat (tick_case; tick_simpl).

(** Hypotheses on numbers as tests, a test the context decides, and the
    status of the handle a tick has just created. *)
Ltac to_tests :=
  repeat match goal with
    | H : _ < _ |- _ => apply Qlt_bool_iff in H
    | H : ~ _ < _ |- _ => apply Qlt_bool_false_iff in H
    end.

Ltac tick_known :=
  match goal with
  | H : ?b = _ |- context [negb ?b] => rewrite H
  end.

Ltac tick_go := unfold_tick; tick_simpl; repeat (first [tick_known | tick_case]; tick_simpl).

Ltac new_status :=
  rewrite ?list_lookup_alter_eq; rewrite lookup_app_r by lia;
  rewrite Nat.sub_diag; reflexivity.

Section TickFacts.
Context `{Bezier}.

Lemma Index_tick_direction tr host t u w :
  direction (snd (Index.tick tr host t u w)) <> Unknown.
Proof.
  destruct w as [d a lt v anims n cs]. destruct d; tick_run; congruence.
Qed.

Lemma Index_tick_last_t tr host t u w :
  last_t (snd (Index.tick tr host t u w)) = t.
Proof.
  destruct w as [d a lt v anims n cs]. destruct d; tick_run; reflexivity.
Qed.

Lemma Rev_tick_direction tr host t u w :
  direction w <> Unknown \/ Rev_applies tr 0 = true ->
  direction (snd (Rev.tick tr host t u w)) <> Unknown.
Proof.
  destruct w as [d a lt v anims n cs]. intros [Hd|Ha]; destruct d; tick_run; congruence.
Qed.

End TickFacts.

(** ** Handles created by a tick *)

Lemma map_definition_alter (f : Animation -> Animation) k (l : list Animation) :
  (forall a, definition (f a) = definition a) ->
  map definition (alter f k l) = map definition l.
Proof.
  intros Hf. revert k. induction l as [|a l IH]; intros [|k]; simpl; try reflexivity.
  - rewrite Hf. reflexivity.
  - f_equal. apply IH.
Qed.

Lemma definition_set_status s a : definition (set_status s a) = definition a.
Proof. reflexivity. Qed.

Lemma definition_play a :
  definition (if isPlaying a then a else set_status Playing a) = definition a.
Proof. destruct (isPlaying a); reflexivity. Qed.

Lemma definition_finish a :
  definition (match status a with Playing => set_status Finished a | _ => a end) = definition a.
Proof. destruct (status a); reflexivity. Qed.

Ltac defs_simpl :=
  repeat first
    [ rewrite map_app
    | rewrite (map_definition_alter _ _ _ (definition_set_status _))
    | rewrite (map_definition_alter _ _ _ definition_play)
    | rewrite (map_definition_alter _ _ _ definition_finish) ];
  simpl.

Lemma new_handle_definition (l L : list Animation) d h a :
  map definition L = map definition l ++ [d] ->
  (length l <= h)%nat -> L !! h = Some a -> definition a = d.
Proof.
  intros HL Hh Ha.
  assert (map definition L !! h = Some (definition a)) as Hd.
  { change (map definition L) with (definition <$> L). rewrite list_lookup_fmap, Ha. reflexivity. }
  rewrite HL in Hd. rewrite lookup_app_r in Hd by (rewrite length_map; exact Hh).
  rewrite length_map in Hd.
  destruct (h - length l)%nat as [|n]; simpl in Hd; [congruence|].
  destruct n; discriminate.
Qed.

Lemma no_new_handle (l L : list Animation) h a :
  map definition L = map definition l ->
  (length l <= h)%nat -> L !! h = Some a -> False.
Proof.
  intros HL Hh Ha. apply lookup_lt_Some in Ha.
  assert (length L = length l) as Hlen.
  { rewrite <- (length_map definition L), HL, length_map. reflexivity. }
  lia.
Qed.

Ltac new_handle :=
  match goal with
  | Hh : (length ?l <= ?h)%nat, Ha : ?L !! ?h = Some ?a |- _ =>
      first
        [ exfalso; apply (no_new_handle l L h a); [defs_simpl; reflexivity | exact Hh | exact Ha]
        | apply (new_handle_definition l L _ h a); [defs_simpl; reflexivity | exact Hh | exact Ha] ]
  end.

(** The handle a facade call has just appended. *)
Lemma lookup_new_handle {A} (l l' : list A) (a : A) :
  length l' = length l -> (l' ++ [a]) !! length l = Some a.
Proof.
  intros Hlen. rewrite lookup_app_r by lia. rewrite Hlen, Nat.sub_diag. reflexivity.
Qed.

Section Requests.
Context `{Bezier}.

Lemma Index_tick_new_handle tr host t u w h a :
  (length (animations w) <= h)%nat ->
  animations (snd (Index.tick tr host t u w)) !! h = Some a ->
  definition a =
    match direction (snd (Index.tick tr host t u w)) with
    | Out => Index.outAnimation tr t (nativeAnimationProps tr 0)
    | _ => Index.inAnimation tr t (nativeAnimationProps tr 1)
    end.
Proof.
  destruct w as [d an lt v anims n cs]. simpl. intros Hh.
  destruct d; tick_run; intros Ha; try congruence; new_handle.
Qed.

Lemma Rev_tick_new_handle tr host t u w h a :
  (length (animations w) <= h)%nat ->
  animations (snd (Rev.tick tr host t u w)) !! h = Some a ->
  definition a =
    match direction (snd (Rev.tick tr host t u w)) with
    | Out => Rev.outAnimation tr (default (1 - t) u) (nativeAnimationProps tr 0)
    | _ => Rev.inAnimation tr t (nativeAnimationProps tr 1)
    end.
Proof.
  destruct w as [d an lt v anims n cs]. simpl. intros Hh.
  destruct d; tick_run; intros Ha; try congruence; new_handle.
Qed.

End Requests.

(** ** Reversals *)

Lemma status_cancelled_kept (l : list Animation) h0 new f :
  (h0 < length l)%nat ->
  status <$> alter f (length l) (alter (set_status Cancelled) h0 l ++ [new]) !! h0
  = Some Cancelled.
Proof.
  intros Hlt. rewrite list_lookup_alter_ne by lia.
  rewrite lookup_app_l by (rewrite length_alter; exact Hlt).
  rewrite list_lookup_alter_eq.
  destruct (lookup_lt_is_Some_2 l h0 Hlt) as [a ->]. reflexivity.
Qed.

Lemma playingAt_lookup h l :
  playingAt h l = true -> exists a, l !! h = Some a /\ status a = Playing.
Proof.
  unfold playingAt, isPlaying. destruct (l !! h) as [a|]; [|discriminate].
  destruct (status a) eqn:E; try discriminate. eauto.
Qed.

Ltac status_solve :=
  match goal with
  | Hp : playingAt ?h0 ?l = true |- _ =>
      let a := fresh "a" in let E := fresh "E" in let Es := fresh "Es" in
      destruct (playingAt_lookup _ _ Hp) as [a [E Es]];
      pose proof (lookup_lt_Some _ _ _ E);
      rewrite ?list_lookup_alter_ne by lia;
      rewrite ?lookup_app_l by (rewrite ?length_alter; lia);
      rewrite ?list_lookup_alter_eq; rewrite E; reflexivity
  end.

Ltac reversal_solve :=
  repeat split; try (left; reflexivity); try (right; reflexivity);
  try (eexists; rewrite <- ?app_assoc; simpl; reflexivity);
  try (intros h0 Hh0 Hp; try congruence; inversion Hh0; subst);
  try status_solve.

Section Reversal.
Context `{Bezier}.

(** A tick that finds the direction reversed, in index.ts. *)
Lemma Index_tick_reversal tr host t u w :
  (direction w = In /\ t < last_t w) \/ (direction w = Out /\ last_t w < t) ->
  let w' := snd (Index.tick tr host t u w) in
  direction w' = match direction w with In => Out | _ => In end /\
  (exists rest, calls w' = calls w ++ cancelCalls w ++ CallBatchUpdate t :: rest) /\
  (forall h0, animation w = Some h0 -> handleIsPlaying h0 w = true ->
     statusOf w' h0 = Some Cancelled) /\
  (animation w' = None \/ animation w' = Some (length (animations w))).
Proof.
  destruct w as [d an lt v anims n cs]. unfold cancelCalls, statusOf. simpl.
  intros [[-> Ht]|[-> Ht]]; apply Qlt_bool_iff in Ht.
  all: tick_run.
  all: reversal_solve.
Qed.

(** The same in the second revision; none of this depends on how the
    re-application at [t] ends. *)
Lemma Rev_tick_reversal tr host t u w :
  (direction w = In /\ t < last_t w) \/ (direction w = Out /\ last_t w < t) ->
  let w' := snd (Rev.tick tr host t u w) in
  direction w' = match direction w with In => Out | _ => In end /\
  (exists rest, calls w' = calls w ++ cancelCalls w ++ CallBatchUpdate t :: rest) /\
  (forall h0, animation w = Some h0 -> handleIsPlaying h0 w = true ->
     statusOf w' h0 = Some Cancelled) /\
  (animation w' = None \/ animation w' = Some (length (animations w))).
Proof.
  destruct w as [d an lt v anims n cs]. unfold cancelCalls, statusOf. simpl.
  intros [[-> Ht]|[-> Ht]]; apply Qlt_bool_iff in Ht.
  all: tick_run.
  all: reversal_solve.
Qed.

(** The view a reversing tick leaves: the definition at [t] is applied; a
    view that is not realized then is snapped to the end point as well. *)
Lemma Index_tick_reversal_view tr host t u w :
  (direction w = In /\ t < last_t w) \/ (direction w = Out /\ last_t w < t) ->
  nativeView (snd (Index.tick tr host t u w)) =
  (let v1 := Index_mapView tr t (nativeView w) in
   if nativeViewProtected v1 then v1
   else Index_mapView tr (match direction w with In => 0 | _ => 1 end) v1).
Proof.
  destruct w as [d an lt v anims n cs]. simpl.
  intros [[-> Ht]|[-> Ht]]; apply Qlt_bool_iff in Ht.
  all: tick_run; first [reflexivity | congruence].
Qed.

Lemma Rev_tick_reversal_view tr host t u w :
  (direction w = In /\ t < last_t w) \/ (direction w = Out /\ last_t w < t) ->
  Rev_applies tr t = true ->
  Rev_applies tr (match direction w with In => 0 | _ => 1 end) = true ->
  nativeView (snd (Rev.tick tr host t u w)) =
  (let v1 := Rev_mapView tr t (nativeView w) in
   if nativeViewProtected v1 then v1
   else Rev_mapView tr (match direction w with In => 0 | _ => 1 end) v1).
Proof.
  destruct w as [d an lt v anims n cs]. simpl.
  intros [[-> Ht]|[-> Ht]] Ha Hb; apply Qlt_bool_iff in Ht.
  all: tick_run; first [reflexivity | congruence].
Qed.

Lemma Rev_tick_last_t tr host t u w :
  Rev_applies tr 0 = true -> Rev_applies tr t = true ->
  last_t (snd (Rev.tick tr host t u w)) = t.
Proof.
  destruct w as [d a lt v anims n cs]. intros H0 Ht. destruct d; tick_run; reflexivity.
Qed.

End Reversal.

(** ** Playing handles *)

Lemma playingAt_cancelled h k l :
  playingAt h (alter (set_status Cancelled) k l) = true ->
  h <> k /\ playingAt h l = true.
Proof.
  unfold playingAt. destruct (decide (h = k)) as [->|Hne].
  - rewrite list_lookup_alter_eq. destruct (l !! k); simpl; discriminate.
  - rewrite list_lookup_alter_ne by congruence. auto.
Qed.

Lemma playingAt_played h k l :
  playingAt h (alter (fun a => if isPlaying a then a else set_status Playing a) k l) = true ->
  h = k \/ playingAt h l = true.
Proof.
  unfold playingAt. destruct (decide (h = k)) as [->|Hne]; [auto|].
  rewrite list_lookup_alter_ne by congruence. auto.
Qed.

Lemma playingAt_finished h k l :
  playingAt h (alter (fun a => match status a with
                               | Playing => set_status Finished a
                               | _ => a
                               end) k l) = true ->
  playingAt h l = true.
Proof.
  unfold playingAt. destruct (decide (h = k)) as [->|Hne].
  - rewrite list_lookup_alter_eq. destruct (l !! k) as [a|]; simpl; [|discriminate].
    unfold isPlaying. destruct (status a) eqn:Es; simpl; rewrite ?Es; intros; congruence.
  - rewrite list_lookup_alter_ne by congruence. auto.
Qed.

Lemma playingAt_created h l d :
  playingAt h (l ++ [{| definition := d; status := Created |}]) = true ->
  playingAt h l = true.
Proof.
  unfold playingAt. destruct (decide (h < length l)%nat) as [Hlt|Hge].
  - rewrite lookup_app_l by exact Hlt. auto.
  - rewrite lookup_app_r by lia.
    destruct (h - length l)%nat as [|[|m]]; simpl; discriminate.
Qed.

Ltac playing_solve Hinv :=
  intros h Hp;
  repeat match goal with
    | Hp : playingAt _ (alter (set_status Cancelled) _ _) = true |- _ =>
        apply playingAt_cancelled in Hp; destruct Hp as [? Hp]
    | Hp : playingAt _ (alter _ _ _) = true |- _ =>
        apply playingAt_played in Hp; destruct Hp as [Hp|Hp]; [subst|]
    | Hp : playingAt _ (_ ++ [_]) = true |- _ => apply playingAt_created in Hp
    end;
  try reflexivity;
  try (specialize (Hinv _ Hp); congruence).

Section Playing.
Context `{Bezier}.

Lemma Index_tick_storedPlaying tr host t u w :
  storedPlaying w -> storedPlaying (snd (Index.tick tr host t u w)).
Proof.
  unfold storedPlaying. destruct w as [d an lt v anims n cs]. simpl. intros Hinv.
  destruct d; tick_run; playing_solve Hinv.
Qed.

Lemma Rev_tick_storedPlaying tr host t u w :
  storedPlaying w -> storedPlaying (snd (Rev.tick tr host t u w)).
Proof.
  unfold storedPlaying. destruct w as [d an lt v anims n cs]. simpl. intros Hinv.
  destruct d; tick_run; playing_solve Hinv.
Qed.

Lemma Index_step_storedPlaying tr ev w :
  storedPlaying w -> storedPlaying (Index.step tr ev w).
Proof.
  destruct ev as [host t u|host|h|b]; simpl.
  - apply Index_tick_storedPlaying.
  - unfold storedPlaying. destruct w as [d an lt v anims n cs]. simpl. intros Hinv.
    destruct n; [exact Hinv|]. tick_run; playing_solve Hinv.
  - unfold storedPlaying, finished. simpl. intros Hinv h' Hp.
    apply playingAt_finished in Hp. auto.
  - unfold storedPlaying. simpl. auto.
Qed.

Lemma Rev_step_storedPlaying tr ev w :
  storedPlaying w -> storedPlaying (Rev.step tr ev w).
Proof.
  destruct ev as [host t u|host|h|b]; simpl.
  - apply Rev_tick_storedPlaying.
  - unfold storedPlaying. destruct w as [d an lt v anims n cs]. simpl. intros Hinv.
    destruct n; [exact Hinv|]. tick_run; playing_solve Hinv.
  - unfold storedPlaying, finished. simpl. intros Hinv h' Hp.
    apply playingAt_finished in Hp. auto.
  - unfold storedPlaying. simpl. auto.
Qed.

Lemma initial_storedPlaying v : storedPlaying (initial v).
Proof. intros h. unfold playingAt. simpl. discriminate. Qed.

Lemma Index_run_storedPlaying tr evs w :
  storedPlaying w -> storedPlaying (Index.run tr evs w).
Proof.
  unfold Index.run. revert w. induction evs as [|ev evs IH]; intros w Hw; simpl; [exact Hw|].
  apply IH, Index_step_storedPlaying, Hw.
Qed.

Lemma Rev_run_storedPlaying tr evs w :
  storedPlaying w -> storedPlaying (Rev.run tr evs w).
Proof.
  unfold Rev.run. revert w. induction evs as [|ev evs IH]; intros w Hw; simpl; [exact Hw|].
  apply IH, Rev_step_storedPlaying, Hw.
Qed.

(** A tick creates at most one handle, and none while a handle is stored
    and the direction stays as it was. *)
Lemma Index_tick_creation tr host t u w :
  let w' := snd (Index.tick tr host t u w) in
  length (animations w') = length (animations w) \/
  (length (animations w') = S (length (animations w)) /\
   animation w' = Some (length (animations w)) /\
   (animation w = None \/ direction w' <> direction w)).
Proof.
  destruct w as [d an lt v anims n cs]. simpl.
  destruct d; tick_run; rewrite ?length_app, ?length_alter; simpl;
    first [left; reflexivity | right; repeat split; first [lia | left; reflexivity | right; congruence]].
Qed.

Lemma Rev_tick_creation tr host t u w :
  let w' := snd (Rev.tick tr host t u w) in
  length (animations w') = length (animations w) \/
  (length (animations w') = S (length (animations w)) /\
   animation w' = Some (length (animations w)) /\
   (animation w = None \/ direction w' <> direction w)).
Proof.
  destruct w as [d an lt v anims n cs]. simpl.
  destruct d; tick_run; rewrite ?length_app, ?length_alter; simpl;
    first [left; reflexivity | right; repeat split; first [lia | left; reflexivity | right; congruence]].
Qed.

End Playing.

(** ** The built-in mapper of index.ts *)

Lemma lookupKey_NoDup (animDef : list (string * Value)) k v :
  NoDup (keys animDef) -> List.In (k, v) animDef -> lookupKey animDef k = Some v.
Proof.
  induction animDef as [|[k' v'] rest IH]; simpl; [tauto|].
  intros Hnd [Heq|Hin].
  - inversion Heq; subst. rewrite String.eqb_refl. reflexivity.
  - apply NoDup_cons in Hnd. destruct Hnd as [Hk' Hnd].
    destruct (String.eqb_spec k' k) as [->|Hne]; [|auto].
    exfalso. apply Hk'. apply list_elem_of_In.
    change (List.In (fst (k, v)) (map fst rest)). apply in_map. exact Hin.
Qed.

Lemma Index_applyKey_spec animDef k v view :
  lookupKey animDef k = Some v ->
  snd (Index.applyKey animDef k view) = specApplyEntry view (k, v).
Proof.
  intros Hv. unfold Index.applyKey, specApplyEntry. rewrite Hv.
  destruct (String.eqb k "scale"); [|destruct (String.eqb k "translate")].
  - destruct v as [n|p|c]; reflexivity.
  - destruct v as [n|p|c]; reflexivity.
  - reflexivity.
Qed.

Lemma Index_forEach_spec animDef (rest : list (string * Value)) view :
  (forall k v, List.In (k, v) rest -> lookupKey animDef k = Some v) ->
  snd (forEach (keys rest) (Index.applyKey animDef) view) = fold_left specApplyEntry rest view.
Proof.
  revert view. induction rest as [|[k v] rest IH]; intros view Hl; simpl; [reflexivity|].
  unfold bind.
  pose proof (Index_applyKey_spec animDef k v view (Hl k v (or_introl eq_refl))) as Hs.
  pose proof (Index_applyKey_normal animDef k view) as Hn.
  destruct (Index.applyKey animDef k view) as [[[]|e] view']; simpl in *.
  - subst view'. apply IH. intros; apply Hl; right; assumption.
  - assert (List.In k (keys animDef)) as Hin.
    { specialize (Hl k v (or_introl eq_refl)). clear -Hl.
      induction animDef as [|[k' v'] l IHl]; simpl in *; [discriminate|].
      destruct (String.eqb_spec k' k); auto. }
    specialize (Hn Hin). discriminate.
Qed.

Section Mapper.
Context `{Bezier}.

(** Without an override, [applyAnimAtTime] of index.ts applies the entries
    of the definition in order, inside one batched update, and completes. *)
Lemma Index_builtin_mapper tr time w :
  applyNativeAnimationProps tr = None ->
  NoDup (keys (nativeAnimationProps tr time)) ->
  Index.applyAnimAtTime tr time w =
  (Normal tt,
   set_nativeView (fold_left specApplyEntry (nativeAnimationProps tr time) (nativeView w))
     (log (CallBatchUpdate time) w)).
Proof.
  intros Hnone Hnd. rewrite Index_applyAnimAtTime_eq. do 2 f_equal.
  unfold Index_mapView. rewrite Hnone.
  apply Index_forEach_spec. intros k v Hin. apply lookupKey_NoDup; assumption.
Qed.

(** With a view that is not realized, the creation block of index.ts only
    snaps to the end point: 1 when entering, 0 when leaving. *)
Lemma Index_newAnimation_unrealized tr host t w :
  nativeViewProtected (nativeView w) = false ->
  Index.newAnimation tr host t w =
  (Normal tt,
   set_nativeView
     (Index_mapView tr (match direction w with In => 1 | _ => 0 end) (nativeView w))
     (log (CallBatchUpdate (match direction w with In => 1 | _ => 0 end)) w)).
Proof.
  intros Hv. unfold Index.newAnimation, bind, gets. simpl. rewrite Hv. simpl.
  apply Index_applyAnimAtTime_eq.
Qed.

(** Once a tick of index.ts has run, the direction is known, and it stays
    known whatever happens next. *)
Lemma Index_step_direction tr ev w :
  direction w <> Unknown -> direction (Index.step tr ev w) <> Unknown.
Proof.
  destruct ev as [host t u|host|h|b]; simpl; intros Hd.
  - apply Index_tick_direction.
  - destruct w as [d a lt v anims n cs]. simpl in *.
    destruct n; [exact Hd|]. tick_run; exact Hd.
  - exact Hd.
  - exact Hd.
Qed.

Lemma Index_run_direction tr evs host t u w :
  direction (Index.run tr (EvTick host t u :: evs) w) <> Unknown.
Proof.
  unfold Index.run. simpl.
  assert (direction (snd (Index.tick tr host t u w)) <> Unknown) as Hd
    by apply Index_tick_direction.
  revert Hd. generalize (snd (Index.tick tr host t u w)). clear w.
  induction evs as [|ev evs IH]; intros w Hd; simpl; [exact Hd|].
  apply IH, Index_step_direction, Hd.
Qed.

(** In the second revision a first tick that is classified as entering
    throws when the definition at progress 0 has a [scale] or a [translate]
    entry and no override maps it; the direction is not set. *)
Lemma Rev_first_tick_throws tr host t u w :
  direction w = Unknown -> 0.5 < default (1 - t) u -> Rev_applies tr 0 = false ->
  fst (Rev.tick tr host t u w) = Throw TypeError /\
  direction (snd (Rev.tick tr host t u w)) = Unknown.
Proof.
  destruct w as [d a lt v anims n cs]. simpl. intros -> Hu Ha.
  apply Qlt_bool_iff in Hu. tick_run. split; reflexivity.
Qed.

(** And its creation block throws on a view that is not realized when the
    end point cannot be mapped. *)
Lemma Rev_newAnimation_unrealized_throws tr host t u w :
  nativeViewProtected (nativeView w) = false ->
  Rev_applies tr (match direction w with In => 1 | _ => 0 end) = false ->
  fst (Rev.newAnimation tr host t u w) = Throw TypeError /\
  animations (snd (Rev.newAnimation tr host t u w)) = animations w.
Proof.
  destruct w as [d a lt v anims n cs]. simpl. intros Hv Ha.
  destruct d; tick_run; first [congruence | split; reflexivity].
Qed.

End Mapper.

(** * The claims *)

Section Claims.
Context `{Bezier}.


(** C2 (amended).  A handle created by a tick that ends in direction [Out]
    asks for the target at progress 0, no delay, the control points of
    [normalizeCurve (reverseCurve c)] and the duration [e * duration], where
    [c] is the configured curve when [e == 1] and its cut over [0, e]
    otherwise.  In the second revision [e] is [u] (the complement of [t]
    when [tick] got one argument); in index.ts [e] is [t]. *)
Theorem C2_out_animation_request (tr : Transition) (host : Host) (t : number)
    (u : option number) (w : World) (h : nat) (a : Animation) :
  (length (animations w) <= h)%nat ->
  (animations (snd (Rev.tick tr host t u w)) !! h = Some a ->
   direction (snd (Rev.tick tr host t u w)) = Out ->
   definition a =
   {| ns_target := nativeAnimationProps tr 0;
      ns_delay := 0;
      ns_curve :=
        controlPoints
          (normalizeCurve
             (reverseCurve
                (if Qeq_bool (default (1 - t) u) 1 then svelteCurve tr
                 else partialCurveFrom (svelteCurve tr) 0 (default (1 - t) u))));
      ns_duration := default (1 - t) u * duration tr |}) /\
  (animations (snd (Index.tick tr host t u w)) !! h = Some a ->
   direction (snd (Index.tick tr host t u w)) = Out ->
   definition a =
   {| ns_target := nativeAnimationProps tr 0;
      ns_delay := 0;
      ns_curve :=
        controlPoints
          (normalizeCurve
             (reverseCurve
                (if Qeq_bool t 1 then svelteCurve tr
                 else partialCurveFrom (svelteCurve tr) 0 t)));
      ns_duration := t * duration tr |}).
Proof.
  intros Hh. split; intros Ha Hd.
  - rewrite (Rev_tick_new_handle tr host t u w h a Hh Ha), Hd. reflexivity.
  - rewrite (Index_tick_new_handle tr host t u w h a Hh Ha), Hd. reflexivity.
Qed.

(** C3 (amended).  A tick that finds the state [In] with [t < last_t], or
    [Out] with [t > last_t], flips the direction, calls [cancel] on the
    stored handle when that handle is playing (a stored handle that is not
    playing is only dropped), clears the stored reference, and then applies
    the definition at [t], all before anything else it does in that call.
    In index.ts [last_t] is [t] after every call; in the second revision it
    is [t] after every call in which the definitions at 0 and at [t] can be
    applied. *)
Theorem C3_reversal (tr : Transition) (host : Host) (t : number) (u : option number)
    (w : World) :
  ((direction w = In /\ t < last_t w) \/ (direction w = Out /\ last_t w < t) ->
   direction (snd (Index.tick tr host t u w)) = match direction w with In => Out | _ => In end /\
   (exists rest,
      calls (snd (Index.tick tr host t u w)) =
      calls w ++ cancelCalls w ++ CallBatchUpdate t :: rest) /\
   (forall h0, animation w = Some h0 -> handleIsPlaying h0 w = true ->
      statusOf (snd (Index.tick tr host t u w)) h0 = Some Cancelled) /\
   (animation (snd (Index.tick tr host t u w)) = None \/
    animation (snd (Index.tick tr host t u w)) = Some (length (animations w))) /\
   nativeView (snd (Index.tick tr host t u w)) =
   (let v1 := Index_mapView tr t (nativeView w) in
    if nativeViewProtected v1 then v1
    else Index_mapView tr (match direction w with In => 0 | _ => 1 end) v1)) /\
  ((direction w = In /\ t < last_t w) \/ (direction w = Out /\ last_t w < t) ->
   direction (snd (Rev.tick tr host t u w)) = match direction w with In => Out | _ => In end /\
   (exists rest,
      calls (snd (Rev.tick tr host t u w)) =
      calls w ++ cancelCalls w ++ CallBatchUpdate t :: rest) /\
   (forall h0, animation w = Some h0 -> handleIsPlaying h0 w = true ->
      statusOf (snd (Rev.tick tr host t u w)) h0 = Some Cancelled) /\
   (animation (snd (Rev.tick tr host t u w)) = None \/
    animation (snd (Rev.tick tr host t u w)) = Some (length (animations w))) /\
   (Rev_applies tr t = true ->
    Rev_applies tr (match direction w with In => 0 | _ => 1 end) = true ->
    nativeView (snd (Rev.tick tr host t u w)) =
    (let v1 := Rev_mapView tr t (nativeView w) in
     if nativeViewProtected v1 then v1
     else Rev_mapView tr (match direction w with In => 0 | _ => 1 end) v1))) /\
  last_t (snd (Index.tick tr host t u w)) = t /\
  (Rev_applies tr 0 = true -> Rev_applies tr t = true ->
   last_t (snd (Rev.tick tr host t u w)) = t).
Proof.
  split; [|split; [|split]].
  - intros Hrev.
    destruct (Index_tick_reversal tr host t u w Hrev) as (Hd & Hc & Hs & Ha).
    repeat split; try assumption. apply Index_tick_reversal_view, Hrev.
  - intros Hrev.
    destruct (Rev_tick_reversal tr host t u w Hrev) as (Hd & Hc & Hs & Ha).
    repeat split; try assumption. intros; apply Rev_tick_reversal_view; assumption.
  - apply Index_tick_last_t.
  - apply Rev_tick_last_t.
Qed.

(** C4.  A handle created by a tick that ends in direction [In] asks for
    the target at progress 1, a delay of zero whatever [delay] was
    configured, the control points of [normalizeCurve c], where [c] is the
    configured curve when [t == 0] and its cut over [t, 1] otherwise, and
    the duration [(1 - t) * duration].  And such a tick does create that
    handle, stores it and leaves it to be played later, whenever
    [createAnimation] succeeds and the view is realized when the creation
    block is reached: on a tick that finds the adapter entering with no
    handle stored, on a tick that turns an outro back, and on a first tick
    classified as entering (in the second revision when the definition it
    applies first can be applied).  Both revisions. *)
Theorem C4_in_animation_request (tr : Transition) (host : Host) (t : number)
    (u : option number) (w : World) (h : nat) (a : Animation) :
  (length (animations w) <= h)%nat ->
  let request :=
    {| ns_target := nativeAnimationProps tr 1;
       ns_delay := 0;
       ns_curve :=
         controlPoints
           (normalizeCurve
              (if Qeq_bool t 0 then svelteCurve tr
               else partialCurveFrom (svelteCurve tr) t 1));
       ns_duration := (1 - t) * duration tr |} in
  (animations (snd (Index.tick tr host t u w)) !! h = Some a ->
   direction (snd (Index.tick tr host t u w)) = In ->
   definition a = request) /\
  (animations (snd (Rev.tick tr host t u w)) !! h = Some a ->
   direction (snd (Rev.tick tr host t u w)) = In ->
   definition a = request) /\
  (createAnimation_throws host = false ->
   (direction w = In -> ~ t < last_t w -> animation w = None ->
    nativeViewProtected (nativeView w) = true ->
    createdWith request w (snd (Index.tick tr host t u w)) /\
    createdWith request w (snd (Rev.tick tr host t u w))) /\
   (direction w = Out -> last_t w < t ->
    (nativeViewProtected (Index_mapView tr t (nativeView w)) = true ->
     createdWith request w (snd (Index.tick tr host t u w))) /\
    (Rev_applies tr t = true ->
     nativeViewProtected (Rev_mapView tr t (nativeView w)) = true ->
     createdWith request w (snd (Rev.tick tr host t u w)))) /\
   (direction w = Unknown -> animation w = None -> ~ t < 0 ->
    (t < 0.5 ->
     nativeViewProtected (Index_mapView tr 0 (nativeView w)) = true ->
     createdWith request w (snd (Index.tick tr host t u w))) /\
    (0.5 < default (1 - t) u -> Rev_applies tr 0 = true ->
     nativeViewProtected (Rev_mapView tr 0 (nativeView w)) = true ->
     createdWith request w (snd (Rev.tick tr host t u w))))).
Proof.
  intros Hh request. split; [|split].
  - intros Ha Hd. rewrite (Index_tick_new_handle tr host t u w h a Hh Ha), Hd. reflexivity.
  - intros Ha Hd. rewrite (Rev_tick_new_handle tr host t u w h a Hh Ha), Hd. reflexivity.
  - clear Hh h a.
    assert (request = Index.inAnimation tr t (nativeAnimationProps tr 1)) as -> by reflexivity.
    unfold createdWith.
    destruct w as [d a lt v anims n cs]. simpl. intros Hc.
    split; [|split].
    + intros -> Ht -> Hv; to_tests. split; tick_go.
      all: rewrite ?length_app; simpl; split; [new_status|split; [lia|reflexivity]].
    + intros -> Ht; to_tests. split; [intros Hv|intros Ha Hv]; tick_go.
      all: rewrite ?length_app, ?length_alter; simpl;
        (split; [apply lookup_new_handle; rewrite ?length_alter; reflexivity|]);
        split; [lia|reflexivity].
    + intros -> -> Ht0; to_tests. split; [intros Ht Hv|intros Hu Ha Hv]; to_tests; tick_go.
      all: rewrite ?length_app; simpl; split; [new_status|split; [lia|reflexivity]].
Qed.

(** C5 (amended).  In every run of one adapter, in both revisions, a handle
    that is playing is the stored one, so at most one handle plays at a
    time.  A tick creates at most one handle, and creates one only when no
    handle was stored or the direction changed in that tick.  A tick that
    reverses the direction calls [cancel] on the stored handle when it is
    playing, drops it in any case, and only then applies the definition and
    creates a handle. *)
Theorem C5_one_playing_handle (tr : Transition) :
  (forall v evs h,
     playingAt h (animations (Index.run tr evs (initial v))) = true ->
     animation (Index.run tr evs (initial v)) = Some h) /\
  (forall v evs h,
     playingAt h (animations (Rev.run tr evs (initial v))) = true ->
     animation (Rev.run tr evs (initial v)) = Some h) /\
  (forall host t u w,
     length (animations (snd (Index.tick tr host t u w))) = length (animations w) \/
     (length (animations (snd (Index.tick tr host t u w))) = S (length (animations w)) /\
      animation (snd (Index.tick tr host t u w)) = Some (length (animations w)) /\
      (animation w = None \/ direction (snd (Index.tick tr host t u w)) <> direction w))) /\
  (forall host t u w,
     length (animations (snd (Rev.tick tr host t u w))) = length (animations w) \/
     (length (animations (snd (Rev.tick tr host t u w))) = S (length (animations w)) /\
      animation (snd (Rev.tick tr host t u w)) = Some (length (animations w)) /\
      (animation w = None \/ direction (snd (Rev.tick tr host t u w)) <> direction w))) /\
  (forall host t u w,
     (direction w = In /\ t < last_t w) \/ (direction w = Out /\ last_t w < t) ->
     (exists rest,
        calls (snd (Index.tick tr host t u w)) =
        calls w ++ cancelCalls w ++ CallBatchUpdate t :: rest) /\
     (forall h0, animation w = Some h0 -> handleIsPlaying h0 w = true ->
        statusOf (snd (Index.tick tr host t u w)) h0 = Some Cancelled) /\
     (animation (snd (Index.tick tr host t u w)) = None \/
      animation (snd (Index.tick tr host t u w)) = Some (length (animations w)))) /\
  (forall host t u w,
     (direction w = In /\ t < last_t w) \/ (direction w = Out /\ last_t w < t) ->
     (exists rest,
        calls (snd (Rev.tick tr host t u w)) =
        calls w ++ cancelCalls w ++ CallBatchUpdate t :: rest) /\
     (forall h0, animation w = Some h0 -> handleIsPlaying h0 w = true ->
        statusOf (snd (Rev.tick tr host t u w)) h0 = Some Cancelled) /\
     (animation (snd (Rev.tick tr host t u w)) = None \/
      animation (snd (Rev.tick tr host t u w)) = Some (length (animations w)))).
Proof.
  split; [|split; [|split; [|split; [|split]]]].
  - intros v evs. apply Index_run_storedPlaying, initial_storedPlaying.
  - intros v evs. apply Rev_run_storedPlaying, initial_storedPlaying.
  - intros. apply Index_tick_creation.
  - intros. apply Rev_tick_creation.
  - intros host t u w Hrev. apply (Index_tick_reversal tr host t u w Hrev).
  - intros host t u w Hrev. apply (Rev_tick_reversal tr host t u w Hrev).
Qed.

(** C9.  The definition [fly] produces at progress [t] has the opacity
    [t * opacity] and the translation
    [(translateX + (1 - t) * x, translateY + (1 - t) * y)], with the
    baselines read from the view when [fly] was called; with [x = 100] and a
    baseline [translateX] of 0 the translation at [t = 0.5] has [x = 50].
    Both revisions. *)
Theorem C9_fly_definition (node : View) (options : FlyOptions) (t : number) :
  nativeAnimationProps (Index.fly node options) t =
    [("opacity", VNumber (t * opacity node));
     ("translate", VPair {| x := translateX node + (1 - t) * default 0 (fly_x options);
                            y := translateY node + (1 - t) * default 0 (fly_y options) |})] /\
  nativeAnimationProps (Rev.fly node options) t =
    [("opacity", VNumber (t * opacity node));
     ("translate", VPair {| x := translateX node + (1 - t) * default 0 (fly_x options);
                            y := translateY node + (1 - t) * default 0 (fly_y options) |})] /\
  (fly_x options = Some 100 -> translateX node == 0 ->
   (exists p, translateOf (nativeAnimationProps (Index.fly node options) 0.5) = Some p /\
              x p == 50) /\
   (exists p, translateOf (nativeAnimationProps (Rev.fly node options) 0.5) = Some p /\
              x p == 50)).
Proof.
  split; [reflexivity|]. split; [reflexivity|].
  intros Hx Htx.
  split; eexists; (split; [reflexivity|]); simpl; rewrite Hx, Htx; reflexivity.
Qed.

(** C10.  Calling [tick] with one argument is calling it with [u = 1 - t],
    in both revisions. *)
Theorem C10_default_u (tr : Transition) (host : Host) (t : number) (w : World) :
  Index.tick tr host t None w = Index.tick tr host t (Some (1 - t)) w /\
  Rev.tick tr host t None w = Rev.tick tr host t (Some (1 - t)) w.
Proof. split; reflexivity. Qed.

End Claims.

(** * The claims on concrete runs *)



(** C2, as stated, fails on index.ts: the outro started by [tick(1, 0)] asks
    for the full curve, reversed, and for the whole duration 400, not for
    [u * duration = 0]. *)
Lemma C2_counterexample :
  direction (snd (Index.tick indexFade quiet 1 (Some 0) (initial (exampleView true)))) = Out /\
  definitionOf (snd (Index.tick indexFade quiet 1 (Some 0) (initial (exampleView true)))) 0
  = Some (Index.outAnimation indexFade 1 (nativeAnimationProps indexFade 0)) /\
  ns_curve (Index.outAnimation indexFade 1 (nativeAnimationProps indexFade 0))
  = controlPoints (normalizeCurve (reverseCurve (svelteCurve indexFade))) /\
  ns_duration (Index.outAnimation indexFade 1 (nativeAnimationProps indexFade 0)) == 400 /\
  ~ ns_duration (Index.outAnimation indexFade 1 (nativeAnimationProps indexFade 0))
    == 0 * duration indexFade.
Proof.
  repeat split; try (vm_compute; reflexivity).
  intros Heq; vm_compute in Heq; discriminate Heq.
Qed.

(** C2 at the outro started by [tick(1, 0)] in the second revision. *)
Lemma C2_witness :
  (length (animations (initial (exampleView true))) <= 0)%nat /\
  animations (snd (Rev.tick revFade quiet 1 (Some 0) (initial (exampleView true)))) !! 0%nat
  = Some {| definition := Rev.outAnimation revFade 0 (nativeAnimationProps revFade 0);
            status := Playing |} /\
  direction (snd (Rev.tick revFade quiet 1 (Some 0) (initial (exampleView true)))) = Out /\
  Rev.outAnimation revFade 0 (nativeAnimationProps revFade 0) =
  {| ns_target := nativeAnimationProps revFade 0;
     ns_delay := 0;
     ns_curve :=
       controlPoints
         (normalizeCurve
            (reverseCurve
               (if Qeq_bool 0 1 then svelteCurve revFade
                else partialCurveFrom (svelteCurve revFade) 0 0)));
     ns_duration := 0 * duration revFade |}.
Proof.
  split; [simpl; lia|]. split; [vm_compute; reflexivity|]. split; [vm_compute; reflexivity|].
  apply (proj1 (C2_out_animation_request revFade quiet 1 (Some 0) (initial (exampleView true))
                  0%nat {| definition := Rev.outAnimation revFade 0 (nativeAnimationProps revFade 0);
                           status := Playing |} (Nat.le_refl 0))).
  - vm_compute; reflexivity.
  - vm_compute; reflexivity.
Defined.

(** C3, as stated, fails: the handle created by [tick(0.3)] is live when
    [tick(0.1)] reverses the direction, and it is not cancelled. *)
Lemma C3_counterexample :
  direction (Index.run indexFade [EvTick quiet 0.3 None] (initial (exampleView true))) = In /\
  animation (Index.run indexFade [EvTick quiet 0.3 None] (initial (exampleView true))) = Some 0%nat /\
  liveAt 0 (animations (Index.run indexFade [EvTick quiet 0.3 None] (initial (exampleView true))))
  = true /\
  direction turnedBack = Out /\
  statusOf turnedBack 0 = Some Created /\
  calls turnedBack =
  [CallBatchUpdate 0; CallCreate 0; CallSetTimeout; CallBatchUpdate 0.1; CallCreate 1; CallPlay 1].
Proof. repeat split; vm_compute; reflexivity. Qed.

(** C3 at the reversal [tick(0.1)] after [tick(0.3)], in index.ts. *)
Lemma C3_witness :
  (direction (Index.run indexFade [EvTick quiet 0.3 None] (initial (exampleView true))) = In /\
   0.1 < last_t (Index.run indexFade [EvTick quiet 0.3 None] (initial (exampleView true)))) /\
  direction
    (snd (Index.tick indexFade quiet 0.1 None
            (Index.run indexFade [EvTick quiet 0.3 None] (initial (exampleView true))))) = Out /\
  last_t
    (snd (Index.tick indexFade quiet 0.1 None
            (Index.run indexFade [EvTick quiet 0.3 None] (initial (exampleView true))))) = 0.1.
Proof.
  assert (direction (Index.run indexFade [EvTick quiet 0.3 None] (initial (exampleView true))) = In /\
          0.1 < last_t (Index.run indexFade [EvTick quiet 0.3 None] (initial (exampleView true))))
    as Hrev by (split; vm_compute; reflexivity).
  split; [exact Hrev|].
  pose proof (C3_reversal indexFade quiet 0.1 None
                (Index.run indexFade [EvTick quiet 0.3 None] (initial (exampleView true))))
    as (Hix & _ & Hlast & _).
  split; [|exact Hlast].
  destruct (Hix (or_introl Hrev)) as (Hd & _). rewrite Hd.
  destruct Hrev as [-> _]. reflexivity.
Defined.

(** C4 at the intro started by [tick(0, 1)]: the second revision and
    index.ts both create the handle, with the request for the whole curve
    and the whole duration. *)
Lemma C4_witness :
  (length (animations (initial (exampleView true))) <= 0)%nat /\
  createAnimation_throws quiet = false /\
  direction (initial (exampleView true)) = Unknown /\
  animation (initial (exampleView true)) = None /\
  ~ 0 < 0 /\ 0 < 0.5 /\ 0.5 < default (1 - 0) (Some 1) /\
  Rev_applies revFade 0 = true /\
  nativeViewProtected (Rev_mapView revFade 0 (exampleView true)) = true /\
  nativeViewProtected (Index_mapView indexFade 0 (exampleView true)) = true /\
  createdWith
    {| ns_target := nativeAnimationProps revFade 1;
       ns_delay := 0;
       ns_curve :=
         controlPoints
           (normalizeCurve
              (if Qeq_bool 0 0 then svelteCurve revFade
               else partialCurveFrom (svelteCurve revFade) 0 1));
       ns_duration := (1 - 0) * duration revFade |}
    (initial (exampleView true))
    (snd (Rev.tick revFade quiet 0 (Some 1) (initial (exampleView true)))) /\
  createdWith
    {| ns_target := nativeAnimationProps indexFade 1;
       ns_delay := 0;
       ns_curve :=
         controlPoints
           (normalizeCurve
              (if Qeq_bool 0 0 then svelteCurve indexFade
               else partialCurveFrom (svelteCurve indexFade) 0 1));
       ns_duration := (1 - 0) * duration indexFade |}
    (initial (exampleView true))
    (snd (Index.tick indexFade quiet 0 (Some 1) (initial (exampleView true)))) /\
  (forall a,
     animations (snd (Rev.tick revFade quiet 0 (Some 1) (initial (exampleView true)))) !! 0%nat
     = Some a ->
     ns_duration (definition a) = (1 - 0) * duration revFade).
Proof.
  assert (~ 0 < 0) as Hneg by (intros Hlt; vm_compute in Hlt; discriminate Hlt).
  split; [simpl; lia|]. split; [reflexivity|]. split; [reflexivity|]. split; [reflexivity|].
  split; [exact Hneg|]. split; [reflexivity|]. split; [reflexivity|]. split; [reflexivity|].
  split; [vm_compute; reflexivity|]. split; [vm_compute; reflexivity|].
  split; [|split].
  - exact (proj2 (proj2 (proj2 (proj2 (proj2
      (C4_in_animation_request revFade quiet 0 (Some 1) (initial (exampleView true)) 0%nat
         {| definition := Rev.inAnimation revFade 0 (nativeAnimationProps revFade 1);
            status := Created |} (Nat.le_refl 0))) eq_refl)) eq_refl eq_refl Hneg)
      eq_refl eq_refl eq_refl).
  - exact (proj1 (proj2 (proj2 (proj2 (proj2
      (C4_in_animation_request indexFade quiet 0 (Some 1) (initial (exampleView true)) 0%nat
         {| definition := Index.inAnimation indexFade 0 (nativeAnimationProps indexFade 1);
            status := Created |} (Nat.le_refl 0))) eq_refl)) eq_refl eq_refl Hneg)
      eq_refl eq_refl).
  - intros a Ha.
    rewrite (proj1 (proj2
      (C4_in_animation_request revFade quiet 0 (Some 1) (initial (exampleView true)) 0%nat a
         (Nat.le_refl 0))) Ha eq_refl).
    reflexivity.
Defined.

(** C5, as stated, fails: after [tick(0.3)] and [tick(0.1)] two handles are
    live at once, the one the intro created (never cancelled, never played)
    and the one the outro plays. *)
Lemma C5_counterexample :
  liveAt 0 (animations turnedBack) = true /\
  liveAt 1 (animations turnedBack) = true /\
  animation turnedBack = Some 1%nat /\
  map status (animations turnedBack) = [Created; Playing].
Proof. repeat split; vm_compute; reflexivity. Qed.

(** C5 on an intro that is played and then turned back: the handle of the
    outro is the one playing, and it is the stored one. *)
Lemma C5_witness :
  playingAt 1 (animations (Index.run indexFade playedThenTurnedBack (initial (exampleView true))))
  = true /\
  animation (Index.run indexFade playedThenTurnedBack (initial (exampleView true)))
  = Some 1%nat /\
  statusOf (Index.run indexFade playedThenTurnedBack (initial (exampleView true))) 0
  = Some Cancelled.
Proof.
  split; [vm_compute; reflexivity|]. split; [|vm_compute; reflexivity].
  apply (proj1 (C5_one_playing_handle indexFade) (exampleView true) playedThenTurnedBack 1%nat).
  vm_compute; reflexivity.
Defined.

(** C6 fails in the second revision: the first tick [tick(0, 1)] of [fly]
    throws while the definition at progress 0 is applied, before the
    direction is set, and so do the ticks that follow it in the first half
    of the intro; index.ts classifies the same first tick as entering. *)
Lemma C6_direction_stays_unknown :
  fst (Rev.tick revFly quiet 0 (Some 1) (initial (exampleView true))) = Throw TypeError /\
  direction (snd (Rev.tick revFly quiet 0 (Some 1) (initial (exampleView true)))) = Unknown /\
  direction
    (Rev.run revFly [EvTick quiet 0 (Some 1); EvTick quiet 0.2 (Some 0.8); EvTick quiet 0.4 (Some 0.6)]
       (initial (exampleView true))) = Unknown /\
  direction (snd (Index.tick indexFly quiet 0 (Some 1) (initial (exampleView true)))) = In.
Proof. repeat split; vm_compute; reflexivity. Qed.

(** C7 fails in the second revision: applying [{ scale: { x: 2, y: 3 } }]
    with the built-in mapper throws and leaves [scaleX] and [scaleY] as they
    were; index.ts sets them to 2 and 3. *)
Lemma C7_scale_pair_throws :
  fst (Rev.applyAnimAtTime revScale 1 (initial (exampleView true))) = Throw TypeError /\
  scaleX (nativeView (snd (Rev.applyAnimAtTime revScale 1 (initial (exampleView true))))) = 1 /\
  scaleY (nativeView (snd (Rev.applyAnimAtTime revScale 1 (initial (exampleView true))))) = 1 /\
  fst (Index.applyAnimAtTime indexScale 1 (initial (exampleView true))) = Normal tt /\
  scaleX (nativeView (snd (Index.applyAnimAtTime indexScale 1 (initial (exampleView true))))) = 2 /\
  scaleY (nativeView (snd (Index.applyAnimAtTime indexScale 1 (initial (exampleView true))))) = 3.
Proof. repeat split; vm_compute; reflexivity. Qed.

(** C8 fails in the second revision: on a view that is not realized, the
    first tick [tick(1, 0)] of [fly] throws while it snaps to the end point
    of the outro, and [translateX] is not moved to the offset 100; index.ts
    completes the same tick with [translateX] at 100.  Neither creates a
    handle. *)
Lemma C8_unrealized_snap_throws :
  fst (Rev.tick (Rev.fly (exampleView false) flyOptions) quiet 1 (Some 0)
         (initial (exampleView false))) = Throw TypeError /\
  translateX (nativeView (snd (Rev.tick (Rev.fly (exampleView false) flyOptions) quiet 1 (Some 0)
                                 (initial (exampleView false))))) == 0 /\
  animations (snd (Rev.tick (Rev.fly (exampleView false) flyOptions) quiet 1 (Some 0)
                     (initial (exampleView false)))) = [] /\
  fst (Index.tick (Index.fly (exampleView false) flyOptions) quiet 1 (Some 0)
         (initial (exampleView false))) = Normal tt /\
  translateX (nativeView (snd (Index.tick (Index.fly (exampleView false) flyOptions) quiet 1 (Some 0)
                                 (initial (exampleView false))))) == 100 /\
  animations (snd (Index.tick (Index.fly (exampleView false) flyOptions) quiet 1 (Some 0)
                     (initial (exampleView false)))) = [].
Proof. repeat split; vm_compute; reflexivity. Qed.

(** C9 on the example view ([translateX = 0]) with [x = 100]. *)
Lemma C9_witness :
  fly_x flyOptions = Some 100 /\
  translateX (exampleView true) == 0 /\
  (exists p, translateOf (nativeAnimationProps indexFly 0.5) = Some p /\ x p == 50).
Proof.
  split; [reflexivity|]. split; [reflexivity|].
  apply (proj1 (proj2 (proj2 (C9_fly_definition (exampleView true) flyOptions 0.5))
                  eq_refl (Qeq_refl 0))).
Defined.

(** * Further properties of the adapter *)

Section Further.
Context `{Bezier}.

(** X1.  A tick that finds a stored handle and no reversal only records
    [t]: it makes no call on the view or on the facade, in both revisions. *)
Theorem X1_steady_tick_is_inert (tr : Transition) (host : Host) (t : number)
    (u : option number) (w : World) (h : nat) :
  animation w = Some h ->
  (direction w = In /\ ~ t < last_t w) \/ (direction w = Out /\ ~ last_t w < t) ->
  Index.tick tr host t u w = (Normal tt, set_last_t t w) /\
  Rev.tick tr host t u w = (Normal tt, set_last_t t w).
Proof.
  destruct w as [d a lt v anims n cs]. simpl. intros -> [[-> Ht]|[-> Ht]]; to_tests.
  all: split; tick_run; reflexivity.
Qed.

(** X2.  When a tick creates the handle of an intro, it does not play it:
    the handle is stored, a [setTimeout] callback is scheduled, the view is
    left as it is, and the next callback to run starts the handle.  Both
    revisions. *)
Theorem X2_intro_play_is_deferred (tr : Transition) (host host' : Host) (t : number)
    (u : option number) (w : World) :
  direction w = In -> ~ t < last_t w -> animation w = None ->
  nativeViewProtected (nativeView w) = true ->
  createAnimation_throws host = false -> play_throws host' = false ->
  (fst (Index.tick tr host t u w) = Normal tt /\
   animation (snd (Index.tick tr host t u w)) = Some (length (animations w)) /\
   statusOf (snd (Index.tick tr host t u w)) (length (animations w)) = Some Created /\
   timers (snd (Index.tick tr host t u w)) = S (timers w) /\
   calls (snd (Index.tick tr host t u w)) =
     calls w ++ [CallCreate (length (animations w)); CallSetTimeout] /\
   nativeView (snd (Index.tick tr host t u w)) = nativeView w /\
   statusOf (Index.step tr (EvTimeout host') (snd (Index.tick tr host t u w)))
     (length (animations w)) = Some Playing) /\
  (fst (Rev.tick tr host t u w) = Normal tt /\
   animation (snd (Rev.tick tr host t u w)) = Some (length (animations w)) /\
   statusOf (snd (Rev.tick tr host t u w)) (length (animations w)) = Some Created /\
   timers (snd (Rev.tick tr host t u w)) = S (timers w) /\
   calls (snd (Rev.tick tr host t u w)) =
     calls w ++ [CallCreate (length (animations w)); CallSetTimeout] /\
   nativeView (snd (Rev.tick tr host t u w)) = nativeView w /\
   statusOf (Rev.step tr (EvTimeout host') (snd (Rev.tick tr host t u w)))
     (length (animations w)) = Some Playing).
Proof.
  destruct w as [d a lt v anims n cs]. unfold statusOf, Index.step, Rev.step. simpl.
  intros -> Ht -> Hv Hc Hp; to_tests.
  split; tick_go; rewrite <- ?app_assoc; simpl; repeat split; new_status.
Qed.

(** X3.  When a tick creates the handle of an outro, it plays it before it
    returns and schedules nothing.  When [play] throws, the error is
    swallowed: the tick returns normally and keeps the handle, created but
    not playing.  Both revisions. *)
Theorem X3_outro_plays_at_once (tr : Transition) (host : Host) (t : number)
    (u : option number) (w : World) :
  direction w = Out -> ~ last_t w < t -> animation w = None ->
  nativeViewProtected (nativeView w) = true ->
  createAnimation_throws host = false ->
  (fst (Index.tick tr host t u w) = Normal tt /\
   animation (snd (Index.tick tr host t u w)) = Some (length (animations w)) /\
   statusOf (snd (Index.tick tr host t u w)) (length (animations w)) =
     Some (if play_throws host then Created else Playing) /\
   timers (snd (Index.tick tr host t u w)) = timers w /\
   calls (snd (Index.tick tr host t u w)) =
     calls w ++ CallCreate (length (animations w))
             :: (if play_throws host then [] else [CallPlay (length (animations w))]) /\
   nativeView (snd (Index.tick tr host t u w)) = nativeView w) /\
  (fst (Rev.tick tr host t u w) = Normal tt /\
   animation (snd (Rev.tick tr host t u w)) = Some (length (animations w)) /\
   statusOf (snd (Rev.tick tr host t u w)) (length (animations w)) =
     Some (if play_throws host then Created else Playing) /\
   timers (snd (Rev.tick tr host t u w)) = timers w /\
   calls (snd (Rev.tick tr host t u w)) =
     calls w ++ CallCreate (length (animations w))
             :: (if play_throws host then [] else [CallPlay (length (animations w))]) /\
   nativeView (snd (Rev.tick tr host t u w)) = nativeView w).
Proof.
  destruct w as [d a lt v anims n cs]. unfold statusOf. simpl.
  intros -> Ht -> Hv Hc; to_tests.
  split; tick_go; rewrite <- ?app_assoc; simpl; repeat split; new_status.
Qed.

Lemma Rev_outcome_throw_inv tr time view e :
  Rev_outcome tr time view = Throw e ->
  e = TypeError /\ applyNativeAnimationProps tr = None.
Proof.
  intros Hout. destruct (Rev_applies tr time) eqn:Ha.
  - rewrite (Rev_outcome_applies _ _ _ Ha) in Hout. discriminate.
  - rewrite (Rev_outcome_throws _ _ _ Ha) in Hout. inversion Hout. split; [reflexivity|].
    unfold Rev_applies in Ha. destruct (applyNativeAnimationProps tr); [discriminate|reflexivity].
Qed.

(** X4.  The only exception that leaves [tick] of index.ts is the one
    thrown by [createAnimation]: with a host that creates, every tick
    returns normally; when a tick throws, no handle is stored or created and
    [last_t] is already [t]. *)
Theorem X4_index_tick_throws_only_from_createAnimation (tr : Transition) (host : Host)
    (t : number) (u : option number) (w : World) :
  (createAnimation_throws host = false -> fst (Index.tick tr host t u w) = Normal tt) /\
  (forall e, fst (Index.tick tr host t u w) = Throw e ->
     e = NativeError /\ createAnimation_throws host = true /\
     animation (snd (Index.tick tr host t u w)) = None /\
     last_t (snd (Index.tick tr host t u w)) = t /\
     length (animations (snd (Index.tick tr host t u w))) = length (animations w)).
Proof.
  destruct w as [d a lt v anims n cs]. simpl. split.
  - intros Hc. destruct d; tick_go; reflexivity.
  - intros e. destruct d; tick_go; intros He; try discriminate He;
      inversion He; subst; repeat split; reflexivity.
Qed.

(** X5.  No error of the facade leaves [tick] of the second revision: what
    it throws is the [TypeError] of its built-in mapper, and with an
    override, or with definitions that have no [scale] and no [translate]
    entry, it never throws, whatever the host does. *)
Theorem X5_rev_tick_throws_only_from_mapper (tr : Transition) (host : Host)
    (t : number) (u : option number) (w : World) :
  (forall e, fst (Rev.tick tr host t u w) = Throw e ->
     e = TypeError /\ applyNativeAnimationProps tr = None) /\
  ((forall time, Rev_applies tr time = true) -> fst (Rev.tick tr host t u w) = Normal tt).
Proof.
  destruct w as [d a lt v anims n cs]. simpl. split.
  - intros e. destruct d; tick_go; intros He; try discriminate He;
      inversion He; subst; eapply Rev_outcome_throw_inv; eassumption.
  - intros Ha. pose proof (Ha 0) as H0. pose proof (Ha 1) as H1. pose proof (Ha t) as Ht.
    destruct d; tick_go; reflexivity.
Qed.

(** X6.  When [createAnimation] throws in a tick that has nothing else to
    do, both revisions leave the same state behind, with [last_t] set and no
    handle stored, so that the next tick tries again; index.ts lets the
    exception out of [tick], the second revision returns normally. *)
Theorem X6_failed_creation_is_abandoned (tr : Transition) (host : Host) (t : number)
    (u : option number) (w : World) :
  animation w = None ->
  (direction w = In /\ ~ t < last_t w) \/ (direction w = Out /\ ~ last_t w < t) ->
  nativeViewProtected (nativeView w) = true ->
  createAnimation_throws host = true ->
  Index.tick tr host t u w = (Throw NativeError, set_last_t t w) /\
  Rev.tick tr host t u w = (Normal tt, set_last_t t w).
Proof.
  destruct w as [d a lt v anims n cs]. simpl. intros -> [[-> Ht]|[-> Ht]] Hv Hc; to_tests.
  all: split; tick_go; reflexivity.
Qed.

(** X7.  A [setTimeout] callback plays the handle that is stored when it
    runs, and never throws: a stored handle that is still waiting to be
    played is playing afterwards, through one [play] call; when nothing is
    stored, or when [play] throws, the callback changes nothing.  In every
    case it leaves the direction, [last_t], the view, the stored reference
    and every other handle as they are.  Both revisions. *)
Theorem X7_timeout_touches_only_the_stored_handle (tr : Transition) (host : Host)
    (w : World) :
  (fst (Index.animateBlock host w) = Normal tt /\
   (forall h, (0 < timers w)%nat -> animation w = Some h -> play_throws host = false ->
      statusOf w h = Some Created ->
      statusOf (Index.step tr (EvTimeout host) w) h = Some Playing /\
      calls (Index.step tr (EvTimeout host) w) = calls w ++ [CallPlay h]) /\
   (animation w = None \/ play_throws host = true ->
      Index.step tr (EvTimeout host) w = set_timers (Nat.pred (timers w)) w) /\
   direction (Index.step tr (EvTimeout host) w) = direction w /\
   last_t (Index.step tr (EvTimeout host) w) = last_t w /\
   nativeView (Index.step tr (EvTimeout host) w) = nativeView w /\
   animation (Index.step tr (EvTimeout host) w) = animation w /\
   timers (Index.step tr (EvTimeout host) w) = Nat.pred (timers w) /\
   (forall h, animation w <> Some h ->
      animations (Index.step tr (EvTimeout host) w) !! h = animations w !! h)) /\
  (fst (Rev.animateBlock host w) = Normal tt /\
   (forall h, (0 < timers w)%nat -> animation w = Some h -> play_throws host = false ->
      statusOf w h = Some Created ->
      statusOf (Rev.step tr (EvTimeout host) w) h = Some Playing /\
      calls (Rev.step tr (EvTimeout host) w) = calls w ++ [CallPlay h]) /\
   (animation w = None \/ play_throws host = true ->
      Rev.step tr (EvTimeout host) w = set_timers (Nat.pred (timers w)) w) /\
   direction (Rev.step tr (EvTimeout host) w) = direction w /\
   last_t (Rev.step tr (EvTimeout host) w) = last_t w /\
   nativeView (Rev.step tr (EvTimeout host) w) = nativeView w /\
   animation (Rev.step tr (EvTimeout host) w) = animation w /\
   timers (Rev.step tr (EvTimeout host) w) = Nat.pred (timers w) /\
   (forall h, animation w <> Some h ->
      animations (Rev.step tr (EvTimeout host) w) !! h = animations w !! h)).
Proof.
  destruct w as [d a lt v anims n cs]. unfold statusOf. simpl.
  split.
  - split; [tick_go; reflexivity|]. split; [|split].
    + intros h Hn -> Hp Hs. destruct n; [lia|]. tick_go.
      rewrite list_lookup_alter_eq.
      destruct (anims !! h) as [[D s]|]; [|discriminate Hs].
      simpl in Hs. inversion Hs; subst s. split; reflexivity.
    + intros [-> | Hp]; destruct n; try reflexivity; tick_go; reflexivity.
    + destruct n; [repeat split; reflexivity|]. tick_go; repeat split;
        try reflexivity; intros h Hh; try reflexivity;
        apply list_lookup_alter_ne; congruence.
  - split; [tick_go; reflexivity|]. split; [|split].
    + intros h Hn -> Hp Hs. destruct n; [lia|]. tick_go.
      rewrite list_lookup_alter_eq.
      destruct (anims !! h) as [[D s]|]; [|discriminate Hs].
      simpl in Hs. inversion Hs; subst s. split; reflexivity.
    + intros [-> | Hp]; destruct n; try reflexivity; tick_go; reflexivity.
    + destruct n; [repeat split; reflexivity|]. tick_go; repeat split;
        try reflexivity; intros h Hh; try reflexivity;
        apply list_lookup_alter_ne; congruence.
Qed.

End Further.

(** ** A handle that was dropped before it played *)

Lemma statusOf_lt w h s : statusOf w h = Some s -> (h < length (animations w))%nat.
Proof.
  unfold statusOf. destruct (animations w !! h) eqn:E; [|discriminate].
  intros _. eapply lookup_lt_Some; eassumption.
Qed.

Ltac orphan_solve Hv Hs Hn :=
  pose proof (statusOf_lt _ _ _ Hs) as Hlt; unfold statusOf in *; simpl in *;
  repeat split;
  [ intros h' Hh'; rewrite ?length_alter, ?length_app, ?length_alter; simpl;
    first [ discriminate Hh'
          | inversion Hh'; subst; first [lia | pose proof (Hv _ eq_refl); lia] ]
  | rewrite ?list_lookup_alter_ne by first [congruence | lia];
    rewrite ?lookup_app_l by (rewrite ?length_alter; lia);
    rewrite ?list_lookup_alter_ne by first [congruence | lia];
    exact Hs
  | first [ discriminate | exact Hn | intros Heq; inversion Heq; lia ] ].

Section Orphan.
Context `{Bezier}.

Lemma Index_tick_orphaned tr host t u w h :
  orphaned h w -> orphaned h (snd (Index.tick tr host t u w)).
Proof.
  unfold orphaned, storedValid. destruct w as [d a lt v anims n cs]. simpl.
  intros (Hv & Hs & Hn). destruct d; tick_run; orphan_solve Hv Hs Hn.
Qed.

Lemma Rev_tick_orphaned tr host t u w h :
  orphaned h w -> orphaned h (snd (Rev.tick tr host t u w)).
Proof.
  unfold orphaned, storedValid. destruct w as [d a lt v anims n cs]. simpl.
  intros (Hv & Hs & Hn). destruct d; tick_run; orphan_solve Hv Hs Hn.
Qed.

Lemma finished_orphaned k w h : orphaned h w -> orphaned h (finished k w).
Proof.
  unfold orphaned, storedValid, statusOf, finished. simpl. intros (Hv & Hs & Hn).
  repeat split; [intros h' Hh'; rewrite length_alter; auto | | exact Hn].
  destruct (decide (k = h)) as [->|Hne].
  - rewrite list_lookup_alter_eq. destruct (animations w !! h) as [a|]; [|discriminate].
    simpl in *. inversion Hs as [Hst]. rewrite Hst. simpl. congruence.
  - rewrite list_lookup_alter_ne by exact Hne. exact Hs.
Qed.

Lemma Index_step_orphaned tr ev w h :
  orphaned h w -> orphaned h (Index.step tr ev w).
Proof.
  destruct ev as [host t u|host|k|b]; simpl.
  - apply Index_tick_orphaned.
  - unfold orphaned, storedValid. destruct w as [d a lt v anims n cs]. simpl.
    intros (Hv & Hs & Hn). destruct n; [auto|]. tick_run; orphan_solve Hv Hs Hn.
  - apply finished_orphaned.
  - unfold orphaned, storedValid, statusOf. simpl. auto.
Qed.

Lemma Rev_step_orphaned tr ev w h :
  orphaned h w -> orphaned h (Rev.step tr ev w).
Proof.
  destruct ev as [host t u|host|k|b]; simpl.
  - apply Rev_tick_orphaned.
  - unfold orphaned, storedValid. destruct w as [d a lt v anims n cs]. simpl.
    intros (Hv & Hs & Hn). destruct n; [auto|]. tick_run; orphan_solve Hv Hs Hn.
  - apply finished_orphaned.
  - unfold orphaned, storedValid, statusOf. simpl. auto.
Qed.

Lemma Index_tick_storedValid tr host t u w :
  storedValid w -> storedValid (snd (Index.tick tr host t u w)).
Proof.
  unfold storedValid. destruct w as [d a lt v anims n cs]. simpl. intros Hv.
  destruct d; tick_run; intros h' Hh';
    rewrite ?length_alter, ?length_app, ?length_alter; simpl;
    first [ discriminate Hh'
          | inversion Hh'; subst; first [lia | pose proof (Hv _ eq_refl); lia] ].
Qed.

Lemma Rev_tick_storedValid tr host t u w :
  storedValid w -> storedValid (snd (Rev.tick tr host t u w)).
Proof.
  unfold storedValid. destruct w as [d a lt v anims n cs]. simpl. intros Hv.
  destruct d; tick_run; intros h' Hh';
    rewrite ?length_alter, ?length_app, ?length_alter; simpl;
    first [ discriminate Hh'
          | inversion Hh'; subst; first [lia | pose proof (Hv _ eq_refl); lia] ].
Qed.

Lemma Index_step_storedValid tr ev w :
  storedValid w -> storedValid (Index.step tr ev w).
Proof.
  destruct ev as [host t u|host|k|b]; simpl.
  - apply Index_tick_storedValid.
  - unfold storedValid. destruct w as [d a lt v anims n cs]. simpl. intros Hv.
    destruct n; [auto|]. tick_run; intros h' Hh'; rewrite ?length_alter;
      first [discriminate Hh' | auto].
  - unfold storedValid, finished. simpl. intros Hv h' Hh'. rewrite length_alter. auto.
  - unfold storedValid. simpl. auto.
Qed.

Lemma Rev_step_storedValid tr ev w :
  storedValid w -> storedValid (Rev.step tr ev w).
Proof.
  destruct ev as [host t u|host|k|b]; simpl.
  - apply Rev_tick_storedValid.
  - unfold storedValid. destruct w as [d a lt v anims n cs]. simpl. intros Hv.
    destruct n; [auto|]. tick_run; intros h' Hh'; rewrite ?length_alter;
      first [discriminate Hh' | auto].
  - unfold storedValid, finished. simpl. intros Hv h' Hh'. rewrite length_alter. auto.
  - unfold storedValid. simpl. auto.
Qed.

Lemma Index_run_storedValid tr evs w :
  storedValid w -> storedValid (Index.run tr evs w).
Proof.
  unfold Index.run. revert w. induction evs as [|ev evs IH]; intros w Hw; simpl; [exact Hw|].
  apply IH, Index_step_storedValid, Hw.
Qed.

Lemma Rev_run_storedValid tr evs w :
  storedValid w -> storedValid (Rev.run tr evs w).
Proof.
  unfold Rev.run. revert w. induction evs as [|ev evs IH]; intros w Hw; simpl; [exact Hw|].
  apply IH, Rev_step_storedValid, Hw.
Qed.

Lemma Index_run_orphaned tr evs w h :
  orphaned h w -> orphaned h (Index.run tr evs w).
Proof.
  unfold Index.run. revert w. induction evs as [|ev evs IH]; intros w Hw; simpl; [exact Hw|].
  apply IH, Index_step_orphaned, Hw.
Qed.

Lemma Rev_run_orphaned tr evs w h :
  orphaned h w -> orphaned h (Rev.run tr evs w).
Proof.
  unfold Rev.run. revert w. induction evs as [|ev evs IH]; intros w Hw; simpl; [exact Hw|].
  apply IH, Rev_step_orphaned, Hw.
Qed.

Lemma initial_storedValid v : storedValid (initial v).
Proof. intros h. simpl. discriminate. Qed.

(** X8.  A handle that is dropped before it was played is never played: in
    every run of an adapter, once a created handle is no longer the stored
    one it stays created, whatever happens afterwards.  Both revisions. *)
Theorem X8_dropped_handle_never_plays (tr : Transition) (v : View)
    (before after : list Event) (h : nat) :
  (statusOf (Index.run tr before (initial v)) h = Some Created ->
   animation (Index.run tr before (initial v)) <> Some h ->
   statusOf (Index.run tr after (Index.run tr before (initial v))) h = Some Created /\
   animation (Index.run tr after (Index.run tr before (initial v))) <> Some h) /\
  (statusOf (Rev.run tr before (initial v)) h = Some Created ->
   animation (Rev.run tr before (initial v)) <> Some h ->
   statusOf (Rev.run tr after (Rev.run tr before (initial v))) h = Some Created /\
   animation (Rev.run tr after (Rev.run tr before (initial v))) <> Some h).
Proof.
  split; intros Hs Hn.
  - apply (Index_run_orphaned tr after). repeat split; try assumption.
    apply Index_run_storedValid, initial_storedValid.
  - apply (Rev_run_orphaned tr after). repeat split; try assumption.
    apply Rev_run_storedValid, initial_storedValid.
Qed.

End Orphan.

(** ** A transition that is not interrupted *)

Lemma Qle_test_false a b : Qle_test a b = true -> Qlt_bool b a = false.
Proof. unfold Qle_test. intros Hle. apply negb_true_iff in Hle. exact Hle. Qed.

Section Uninterrupted.
Context `{Bezier}.

Lemma Index_step_oneAnimation tr ev w d D :
  oneAnimation d D w -> keepsDirection d (last_t w) ev = true ->
  oneAnimation d D (Index.step tr ev w) /\
  last_t (Index.step tr ev w) = match ev with EvTick _ t _ => t | _ => last_t w end /\
  existsb isBatchUpdate (calls (Index.step tr ev w)) = existsb isBatchUpdate (calls w).
Proof.
  unfold oneAnimation. destruct w as [d0 a lt v anims n cs]. simpl.
  intros (-> & -> & HD) Hk. destruct ev as [host t u|host|k|b]; simpl in *.
  - destruct d; try discriminate; apply Qle_test_false in Hk; tick_run; auto.
  - destruct n; [auto|]. tick_run; rewrite ?existsb_app; simpl; rewrite ?orb_false_r;
      defs_simpl; auto.
  - unfold finished. simpl. defs_simpl. auto.
  - auto.
Qed.

Lemma Rev_step_oneAnimation tr ev w d D :
  oneAnimation d D w -> keepsDirection d (last_t w) ev = true ->
  oneAnimation d D (Rev.step tr ev w) /\
  last_t (Rev.step tr ev w) = match ev with EvTick _ t _ => t | _ => last_t w end /\
  existsb isBatchUpdate (calls (Rev.step tr ev w)) = existsb isBatchUpdate (calls w).
Proof.
  unfold oneAnimation. destruct w as [d0 a lt v anims n cs]. simpl.
  intros (-> & -> & HD) Hk. destruct ev as [host t u|host|k|b]; simpl in *.
  - destruct d; try discriminate; apply Qle_test_false in Hk; tick_run; auto.
  - destruct n; [auto|]. tick_run; rewrite ?existsb_app; simpl; rewrite ?orb_false_r;
      defs_simpl; auto.
  - unfold finished. simpl. defs_simpl. auto.
  - auto.
Qed.

Lemma ascending_keeps lt ev evs :
  ascending lt (ev :: evs) = true ->
  keepsDirection In lt ev = true /\
  ascending (match ev with EvTick _ t _ => t | _ => lt end) evs = true.
Proof.
  destruct ev; simpl; [apply andb_true_iff | auto ..].
Qed.

Lemma descending_keeps lt ev evs :
  descending lt (ev :: evs) = true ->
  keepsDirection Out lt ev = true /\
  descending (match ev with EvTick _ t _ => t | _ => lt end) evs = true.
Proof.
  destruct ev; simpl; [apply andb_true_iff | auto ..].
Qed.

Lemma Index_run_ascending tr evs w D :
  oneAnimation In D w -> ascending (last_t w) evs = true ->
  oneAnimation In D (Index.run tr evs w) /\
  existsb isBatchUpdate (calls (Index.run tr evs w)) = existsb isBatchUpdate (calls w).
Proof.
  unfold Index.run. revert w. induction evs as [|ev evs IH]; intros w Hw Ha; simpl; [auto|].
  apply ascending_keeps in Ha. destruct Ha as [Hk Ha].
  destruct (Index_step_oneAnimation tr ev w In D Hw Hk) as (Hw' & Hl & Hc).
  rewrite <- Hl in Ha. rewrite <- Hc. apply IH; assumption.
Qed.

Lemma Rev_run_ascending tr evs w D :
  oneAnimation In D w -> ascending (last_t w) evs = true ->
  oneAnimation In D (Rev.run tr evs w) /\
  existsb isBatchUpdate (calls (Rev.run tr evs w)) = existsb isBatchUpdate (calls w).
Proof.
  unfold Rev.run. revert w. induction evs as [|ev evs IH]; intros w Hw Ha; simpl; [auto|].
  apply ascending_keeps in Ha. destruct Ha as [Hk Ha].
  destruct (Rev_step_oneAnimation tr ev w In D Hw Hk) as (Hw' & Hl & Hc).
  rewrite <- Hl in Ha. rewrite <- Hc. apply IH; assumption.
Qed.

Lemma Index_run_descending tr evs w D :
  oneAnimation Out D w -> descending (last_t w) evs = true ->
  oneAnimation Out D (Index.run tr evs w) /\
  existsb isBatchUpdate (calls (Index.run tr evs w)) = existsb isBatchUpdate (calls w).
Proof.
  unfold Index.run. revert w. induction evs as [|ev evs IH]; intros w Hw Ha; simpl; [auto|].
  apply descending_keeps in Ha. destruct Ha as [Hk Ha].
  destruct (Index_step_oneAnimation tr ev w Out D Hw Hk) as (Hw' & Hl & Hc).
  rewrite <- Hl in Ha. rewrite <- Hc. apply IH; assumption.
Qed.

Lemma Rev_run_descending tr evs w D :
  oneAnimation Out D w -> descending (last_t w) evs = true ->
  oneAnimation Out D (Rev.run tr evs w) /\
  existsb isBatchUpdate (calls (Rev.run tr evs w)) = existsb isBatchUpdate (calls w).
Proof.
  unfold Rev.run. revert w. induction evs as [|ev evs IH]; intros w Hw Ha; simpl; [auto|].
  apply descending_keeps in Ha. destruct Ha as [Hk Ha].
  destruct (Rev_step_oneAnimation tr ev w Out D Hw Hk) as (Hw' & Hl & Hc).
  rewrite <- Hl in Ha. rewrite <- Hc. apply IH; assumption.
Qed.

(** X9.  An intro that is not turned back is one native animation, in
    index.ts: when the first tick has [0 <= t0 < 0.5], the view is realized
    and [createAnimation] succeeds, and no later tick carries a smaller
    progress than the tick before it, then at every later point exactly
    one handle has been created, it is the stored one, and its request is
    the one built at [t0] for the target at progress 1. *)
Theorem X9_index_intro_is_one_animation (tr : Transition) (v : View) (host : Host)
    (t0 : number) (u0 : option number) (evs : list Event) :
  nativeViewProtected (Index_mapView tr 0 v) = true ->
  createAnimation_throws host = false ->
  ~ t0 < 0 -> t0 < 0.5 -> ascending t0 evs = true ->
  direction (Index.run tr (EvTick host t0 u0 :: evs) (initial v)) = In /\
  animation (Index.run tr (EvTick host t0 u0 :: evs) (initial v)) = Some 0%nat /\
  map definition (animations (Index.run tr (EvTick host t0 u0 :: evs) (initial v))) =
    [Index.inAnimation tr t0 (nativeAnimationProps tr 1)].
Proof.
  intros Hv Hc Hneg Ht Hasc. to_tests.
  change (Index.run tr (EvTick host t0 u0 :: evs) (initial v))
    with (Index.run tr evs (snd (Index.tick tr host t0 u0 (initial v)))).
  assert (snd (Index.tick tr host t0 u0 (initial v)) =
          log CallSetTimeout (set_timers 1 (set_animation (Some 0%nat)
            (log (CallCreate 0)
               (set_animations
                  [{| definition := Index.inAnimation tr t0 (nativeAnimationProps tr 1);
                      status := Created |}]
                  (set_last_t t0 (set_direction In
                     (set_nativeView (Index_mapView tr 0 v)
                        (log (CallBatchUpdate 0) (initial v)))))))))) as Hfirst.
  { unfold initial. tick_go. reflexivity. }
  rewrite Hfirst. apply Index_run_ascending; [repeat split | exact Hasc].
Qed.

(** X10.  The same in the second revision, where the first tick is an
    intro when [u0 > 0.5] and needs a definition at progress 0 that its
    mapper can apply. *)
Theorem X10_rev_intro_is_one_animation (tr : Transition) (v : View) (host : Host)
    (t0 : number) (u0 : option number) (evs : list Event) :
  Rev_applies tr 0 = true ->
  nativeViewProtected (Rev_mapView tr 0 v) = true ->
  createAnimation_throws host = false ->
  ~ t0 < 0 -> 0.5 < default (1 - t0) u0 -> ascending t0 evs = true ->
  direction (Rev.run tr (EvTick host t0 u0 :: evs) (initial v)) = In /\
  animation (Rev.run tr (EvTick host t0 u0 :: evs) (initial v)) = Some 0%nat /\
  map definition (animations (Rev.run tr (EvTick host t0 u0 :: evs) (initial v))) =
    [Rev.inAnimation tr t0 (nativeAnimationProps tr 1)].
Proof.
  intros Ha Hv Hc Hneg Hu Hasc. to_tests.
  change (Rev.run tr (EvTick host t0 u0 :: evs) (initial v))
    with (Rev.run tr evs (snd (Rev.tick tr host t0 u0 (initial v)))).
  assert (snd (Rev.tick tr host t0 u0 (initial v)) =
          log CallSetTimeout (set_timers 1 (set_animation (Some 0%nat)
            (log (CallCreate 0)
               (set_animations
                  [{| definition := Rev.inAnimation tr t0 (nativeAnimationProps tr 1);
                      status := Created |}]
                  (set_last_t t0 (set_direction In
                     (set_nativeView (Rev_mapView tr 0 v)
                        (log (CallBatchUpdate 0) (initial v)))))))))) as Hfirst.
  { unfold initial. tick_go. reflexivity. }
  rewrite Hfirst. apply Rev_run_ascending; [repeat split | exact Hasc].
Qed.

(** X11.  An outro that is not turned back is one native animation, and
    the adapter never writes a property of the view during it: when the
    first tick is classified as leaving ([t0 >= 0.5] in index.ts,
    [u0 <= 0.5] in the second revision), the view is realized and
    [createAnimation] succeeds, and no later tick carries a larger progress
    than the tick before it, then exactly one handle has been created, with
    the request built at the first tick, and no batched update was made. *)
Theorem X11_outro_is_one_animation (tr : Transition) (v : View) (host : Host)
    (t0 : number) (u0 : option number) (evs : list Event) :
  nativeViewProtected v = true ->
  createAnimation_throws host = false ->
  descending t0 evs = true ->
  (~ t0 < 0.5 ->
   direction (Index.run tr (EvTick host t0 u0 :: evs) (initial v)) = Out /\
   animation (Index.run tr (EvTick host t0 u0 :: evs) (initial v)) = Some 0%nat /\
   map definition (animations (Index.run tr (EvTick host t0 u0 :: evs) (initial v))) =
     [Index.outAnimation tr t0 (nativeAnimationProps tr 0)] /\
   existsb isBatchUpdate (calls (Index.run tr (EvTick host t0 u0 :: evs) (initial v)))
   = false) /\
  (~ 0.5 < default (1 - t0) u0 ->
   direction (Rev.run tr (EvTick host t0 u0 :: evs) (initial v)) = Out /\
   animation (Rev.run tr (EvTick host t0 u0 :: evs) (initial v)) = Some 0%nat /\
   map definition (animations (Rev.run tr (EvTick host t0 u0 :: evs) (initial v))) =
     [Rev.outAnimation tr (default (1 - t0) u0) (nativeAnimationProps tr 0)] /\
   existsb isBatchUpdate (calls (Rev.run tr (EvTick host t0 u0 :: evs) (initial v)))
   = false).
Proof.
  intros Hv Hc Hdesc. split; intros Ht; to_tests.
  - change (Index.run tr (EvTick host t0 u0 :: evs) (initial v))
      with (Index.run tr evs (snd (Index.tick tr host t0 u0 (initial v)))).
    assert (oneAnimation Out (Index.outAnimation tr t0 (nativeAnimationProps tr 0))
              (snd (Index.tick tr host t0 u0 (initial v))) /\
            last_t (snd (Index.tick tr host t0 u0 (initial v))) = t0 /\
            existsb isBatchUpdate (calls (snd (Index.tick tr host t0 u0 (initial v)))) = false)
      as (Hone & Hl & Hcalls).
    { unfold oneAnimation, initial. tick_go; defs_simpl; repeat split. }
    rewrite <- Hl in Hdesc.
    destruct (Index_run_descending tr evs _ _ Hone Hdesc) as ((Hd & Ha & HD) & Hb).
    rewrite Hb. auto.
  - change (Rev.run tr (EvTick host t0 u0 :: evs) (initial v))
      with (Rev.run tr evs (snd (Rev.tick tr host t0 u0 (initial v)))).
    assert (oneAnimation Out (Rev.outAnimation tr (default (1 - t0) u0) (nativeAnimationProps tr 0))
              (snd (Rev.tick tr host t0 u0 (initial v))) /\
            last_t (snd (Rev.tick tr host t0 u0 (initial v))) = t0 /\
            existsb isBatchUpdate (calls (snd (Rev.tick tr host t0 u0 (initial v)))) = false)
      as (Hone & Hl & Hcalls).
    { unfold oneAnimation, initial. tick_go; defs_simpl; repeat split. }
    rewrite <- Hl in Hdesc.
    destruct (Rev_run_descending tr evs _ _ Hone Hdesc) as ((Hd & Ha & HD) & Hb).
    rewrite Hb. auto.
Qed.

End Uninterrupted.

(** ** The built-in mapper *)

Lemma mapperKeeps_refl v : mapperKeeps v v.
Proof. unfold mapperKeeps. auto. Qed.

Lemma mapperKeeps_trans v1 v2 v3 :
  mapperKeeps v1 v2 -> mapperKeeps v2 v3 -> mapperKeeps v1 v3.
Proof.
  unfold mapperKeeps. intros (Hn & Hh & Hs) (Hn' & Hh' & Hs').
  split; [congruence|]. split; [congruence|].
  intros Hsome. destruct (Hs Hsome) as (Hs2 & He).
  destruct (Hs' Hs2) as (Hs3 & He').
  split; [exact Hs3|congruence].
Qed.

Lemma assignView_keeps k value v :
  nativeViewProtected (assignView k value v) = nativeViewProtected v /\
  effectiveHeight (assignView k value v) = effectiveHeight v /\
  style (assignView k value v) = style v.
Proof.
  unfold assignView, set_numeric.
  repeat match goal with
    | |- context [String.eqb ?a ?b] => destruct (String.eqb a b)
    end;
    destruct value as [[n|p|c]|]; simpl; auto.
Qed.

Lemma assignView_pair_keeps k value v :
  k = "scaleX" \/ k = "scaleY" \/ k = "translateX" \/ k = "translateY" ->
  mapperKeeps v (assignView k value v).
Proof.
  unfold mapperKeeps.
  intros [-> | [-> | [-> | ->]]]; destruct value as [[n|p|c]|]; simpl;
    (split; [reflexivity|]); (split; [reflexivity|]); intros Hsome;
    (split; [exact Hsome|reflexivity]).
Qed.

Lemma assignStyleOrView_keeps k value v : mapperKeeps v (assignStyleOrView k value v).
Proof.
  unfold mapperKeeps, assignStyleOrView. destruct (style v) as [s|] eqn:Es.
  - destruct value; simpl; (split; [reflexivity|]); (split; [reflexivity|]);
      intros _; (split; [eauto|reflexivity]).
  - destruct (assignView_keeps k value v) as (Hn & Hh & Hs).
    split; [exact Hn|]. split; [exact Hh|]. intros [? Hsome]. discriminate Hsome.
Qed.

Lemma forEach_keeps {A} (l : list A) (body : A -> Stmt View unit) :
  (forall a v, mapperKeeps v (snd (body a v))) ->
  forall v, mapperKeeps v (snd (forEach l body v)).
Proof.
  intros Hbody. induction l as [|a rest IH]; intros v; simpl; [apply mapperKeeps_refl|].
  unfold bind. pose proof (Hbody a v) as Ha.
  destruct (body a v) as [[[]|e] v']; simpl in *; [|exact Ha].
  eapply mapperKeeps_trans; [exact Ha | apply IH].
Qed.

Lemma Index_applyKey_keeps animDef k v : mapperKeeps v (snd (Index.applyKey animDef k v)).
Proof.
  unfold Index.applyKey, bind, lift, modify.
  destruct (String.eqb k "scale"); [|destruct (String.eqb k "translate")].
  - destruct (getMember (lookupKey animDef k) "x") as [vx|e]; simpl; [|apply mapperKeeps_refl].
    destruct (getMember (lookupKey animDef k) "y") as [vy|e]; simpl.
    + eapply mapperKeeps_trans; apply assignView_pair_keeps; auto.
    + apply assignView_pair_keeps; auto.
  - destruct (getMember (lookupKey animDef k) "x") as [vx|e]; simpl; [|apply mapperKeeps_refl].
    destruct (getMember (lookupKey animDef k) "y") as [vy|e]; simpl.
    + eapply mapperKeeps_trans; apply assignView_pair_keeps; auto.
    + apply assignView_pair_keeps; auto.
  - simpl. apply assignStyleOrView_keeps.
Qed.

Lemma Rev_applyKey_keeps animDef k v : mapperKeeps v (snd (Rev.applyKey animDef k v)).
Proof.
  unfold Rev.applyKey, bind, lift, modify.
  destruct (String.eqb k "scale"); [|destruct (String.eqb k "translate")].
  - destruct (getMember (lookupKey animDef k) "scale") as [s|e]; simpl; [|apply mapperKeeps_refl].
    destruct (getMember s "x") as [vx|e]; simpl; [|apply mapperKeeps_refl].
    destruct (getMember s "y") as [vy|e]; simpl.
    + eapply mapperKeeps_trans; apply assignView_pair_keeps; auto.
    + apply assignView_pair_keeps; auto.
  - destruct (getMember (lookupKey animDef k) "translate") as [s|e]; simpl;
      [|apply mapperKeeps_refl].
    destruct (getMember s "x") as [vx|e]; simpl; [|apply mapperKeeps_refl].
    destruct (getMember s "y") as [vy|e]; simpl.
    + eapply mapperKeeps_trans; apply assignView_pair_keeps; auto.
    + apply assignView_pair_keeps; auto.
  - simpl. apply assignStyleOrView_keeps.
Qed.

Lemma lookupKey_not_in (animDef : list (string * Value)) k :
  ~ List.In k (keys animDef) -> lookupKey animDef k = None.
Proof.
  induction animDef as [|[k' v'] rest IH]; simpl; [reflexivity|].
  intros Hn. destruct (String.eqb_spec k' k); [tauto|]. apply IH. tauto.
Qed.

(** The entries of a definition applied in order to a view that has a style
    object: what each property holds at the end. *)
Lemma fold_specApplyEntry (animDef : list (string * Value)) :
  NoDup (keys animDef) -> forall v, is_Some (style v) ->
  is_Some (style (fold_left specApplyEntry animDef v)) /\
  scaleX (fold_left specApplyEntry animDef v) =
    match lookupKey animDef "scale" with Some (VPair p) => x p | _ => scaleX v end /\
  scaleY (fold_left specApplyEntry animDef v) =
    match lookupKey animDef "scale" with Some (VPair p) => y p | _ => scaleY v end /\
  translateX (fold_left specApplyEntry animDef v) =
    match lookupKey animDef "translate" with Some (VPair p) => x p | _ => translateX v end /\
  translateY (fold_left specApplyEntry animDef v) =
    match lookupKey animDef "translate" with Some (VPair p) => y p | _ => translateY v end /\
  (forall k, k <> "scale" -> k <> "translate" ->
     styleOf (fold_left specApplyEntry animDef v) k =
     match lookupKey animDef k with Some value => Some value | None => styleOf v k end).
Proof.
  induction animDef as [|[k0 v0] rest IH]; intros Hnd v Hs.
  - simpl. repeat split; auto.
  - apply NoDup_cons in Hnd. destruct Hnd as [Hk0 Hnd].
    assert (lookupKey rest k0 = None) as Hnone.
    { apply lookupKey_not_in. intros Hin. apply Hk0, list_elem_of_In, Hin. }
    cbn [fold_left lookupKey].
    remember (specApplyEntry v (k0, v0)) as v1 eqn:Hv1.
    assert (is_Some (style v1) /\
            (forall k, k <> "scale" -> k <> "translate" ->
               styleOf v1 k = if String.eqb k0 k then Some v0 else styleOf v k) /\
            scaleX v1 = (if String.eqb k0 "scale"
                         then match v0 with VPair p => x p | _ => scaleX v end
                         else scaleX v) /\
            scaleY v1 = (if String.eqb k0 "scale"
                         then match v0 with VPair p => y p | _ => scaleY v end
                         else scaleY v) /\
            translateX v1 = (if String.eqb k0 "translate"
                             then match v0 with VPair p => x p | _ => translateX v end
                             else translateX v) /\
            translateY v1 = (if String.eqb k0 "translate"
                             then match v0 with VPair p => y p | _ => translateY v end
                             else translateY v)) as (Hs1 & Hst & Hsx & Hsy & Htx & Hty).
    { subst v1. unfold specApplyEntry.
      destruct (String.eqb_spec k0 "scale") as [->|Hns];
        [|destruct (String.eqb_spec k0 "translate") as [->|Hnt]].
      - split; [destruct v0; exact Hs|]. split.
        + intros k Hk1 Hk2. destruct (String.eqb_spec "scale" k); [congruence|].
          destruct v0; reflexivity.
        + destruct v0; repeat split; reflexivity.
      - split; [destruct v0; exact Hs|]. split.
        + intros k Hk1 Hk2. destruct (String.eqb_spec "translate" k); [congruence|].
          destruct v0; reflexivity.
        + destruct v0; repeat split; reflexivity.
      - destruct Hs as [s Hs]. unfold assignStyleOrView. rewrite Hs.
        split; [simpl; eauto|]. split; [|repeat split; reflexivity].
        intros k Hk1 Hk2. unfold styleOf. simpl. rewrite Hs.
        destruct (String.eqb_spec k0 k) as [<-|Hne];
          [apply lookup_insert_eq | apply lookup_insert_ne; exact Hne]. }
    destruct (IH Hnd v1 Hs1) as (H1 & H2 & H3 & H4 & H5 & H6).
    split; [exact H1|]. rewrite H2, H3, H4, H5, Hsx, Hsy, Htx, Hty.
    split; [|split; [|split; [|split]]].
    + destruct (String.eqb k0 "scale") eqn:E; [|reflexivity].
      apply String.eqb_eq in E. subst k0. rewrite Hnone. reflexivity.
    + destruct (String.eqb k0 "scale") eqn:E; [|reflexivity].
      apply String.eqb_eq in E. subst k0. rewrite Hnone. reflexivity.
    + destruct (String.eqb k0 "translate") eqn:E; [|reflexivity].
      apply String.eqb_eq in E. subst k0. rewrite Hnone. reflexivity.
    + destruct (String.eqb k0 "translate") eqn:E; [|reflexivity].
      apply String.eqb_eq in E. subst k0. rewrite Hnone. reflexivity.
    + intros k Hk1 Hk2. rewrite (H6 k Hk1 Hk2), (Hst k Hk1 Hk2).
      destruct (String.eqb_spec k0 k) as [<-|Hne]; [rewrite Hnone; reflexivity|].
      reflexivity.
Qed.

Section MapperFacts.
Context `{Bezier}.

(** X12.  Without an override, applying a definition of the declared type
    never changes whether the view is realized nor its measured height, and
    on a view with a style object it keeps that object in place and writes
    no own property of the view other than its scale and its translation:
    [scale] and [translate] go to the four numeric properties, everything
    else to the style.  Both revisions, also when the second one throws
    part of the way. *)
Theorem X12_builtin_mapper_keeps (tr : Transition) (time : number) (w : World) :
  applyNativeAnimationProps tr = None ->
  declaredKeys (nativeAnimationProps tr time) = true ->
  mapperKeeps (nativeView w) (nativeView (snd (Index.applyAnimAtTime tr time w))) /\
  mapperKeeps (nativeView w) (nativeView (snd (Rev.applyAnimAtTime tr time w))).
Proof.
  intros Hnone _. unfold Index.applyAnimAtTime, Rev.applyAnimAtTime, batchUpdate. simpl.
  rewrite Hnone. split; apply forEach_keeps; intros.
  - apply Index_applyKey_keeps.
  - apply Rev_applyKey_keeps.
Qed.

(** X13.  In index.ts, without an override and on a view that has a style
    object, applying a definition of the declared type completes in one
    batched update and writes every entry where it belongs: the pair stored
    under [scale] is read back from [scaleX] and [scaleY], the pair stored
    under [translate] from [translateX] and [translateY], and every other
    entry from its key on the style. *)
Theorem X13_index_mapper_result (tr : Transition) (time : number) (w : World) :
  applyNativeAnimationProps tr = None ->
  NoDup (keys (nativeAnimationProps tr time)) ->
  declaredKeys (nativeAnimationProps tr time) = true ->
  is_Some (style (nativeView w)) ->
  fst (Index.applyAnimAtTime tr time w) = Normal tt /\
  calls (snd (Index.applyAnimAtTime tr time w)) = calls w ++ [CallBatchUpdate time] /\
  (forall p, lookupKey (nativeAnimationProps tr time) "scale" = Some (VPair p) ->
     scaleX (nativeView (snd (Index.applyAnimAtTime tr time w))) = x p /\
     scaleY (nativeView (snd (Index.applyAnimAtTime tr time w))) = y p) /\
  (forall p, lookupKey (nativeAnimationProps tr time) "translate" = Some (VPair p) ->
     translateX (nativeView (snd (Index.applyAnimAtTime tr time w))) = x p /\
     translateY (nativeView (snd (Index.applyAnimAtTime tr time w))) = y p) /\
  (forall k value, k <> "scale" -> k <> "translate" ->
     lookupKey (nativeAnimationProps tr time) k = Some value ->
     styleOf (nativeView (snd (Index.applyAnimAtTime tr time w))) k = Some value).
Proof.
  intros Hnone Hnd _ Hs. rewrite (Index_builtin_mapper tr time w Hnone Hnd). simpl.
  destruct (fold_specApplyEntry _ Hnd (nativeView w) Hs) as (H1 & H2 & H3 & H4 & H5 & H6).
  split; [reflexivity|]. split; [reflexivity|]. split; [|split].
  - intros p Hp. rewrite H2, H3, Hp. split; reflexivity.
  - intros p Hp. rewrite H4, H5, Hp. split; reflexivity.
  - intros k value Hk1 Hk2 Hl. rewrite (H6 k Hk1 Hk2), Hl. reflexivity.
Qed.

End MapperFacts.

(** ** The factories *)

Section Factories.
Context `{Bezier}.

(** X14.  Applied by index.ts to a view that has a style object, the
    definition of [fly] at progress 1 puts the view at the translation and
    the opacity it had when [fly] was called, and at progress 0 it puts it
    at that translation moved by [(x, y)], with opacity 0. *)
Theorem X14_index_fly_end_points (node : View) (options : FlyOptions) (w : World) :
  is_Some (style (nativeView w)) ->
  (translateX (nativeView (snd (Index.applyAnimAtTime (Index.fly node options) 1 w)))
     == translateX node /\
   translateY (nativeView (snd (Index.applyAnimAtTime (Index.fly node options) 1 w)))
     == translateY node /\
   exists o,
     styleOf (nativeView (snd (Index.applyAnimAtTime (Index.fly node options) 1 w))) "opacity"
     = Some (VNumber o) /\ o == opacity node) /\
  (translateX (nativeView (snd (Index.applyAnimAtTime (Index.fly node options) 0 w)))
     == translateX node + default 0 (fly_x options) /\
   translateY (nativeView (snd (Index.applyAnimAtTime (Index.fly node options) 0 w)))
     == translateY node + default 0 (fly_y options) /\
   exists o,
     styleOf (nativeView (snd (Index.applyAnimAtTime (Index.fly node options) 0 w))) "opacity"
     = Some (VNumber o) /\ o == 0).
Proof.
  intros [s Hs].
  unfold Index.applyAnimAtTime, batchUpdate, Index.fly, Index.asSvelteTransition, styleOf.
  cbn -[Qplus Qminus Qmult]. unfold bind, lift, modify, assignStyleOrView.
  cbn -[Qplus Qminus Qmult]. rewrite Hs. cbn -[Qplus Qminus Qmult].
  split; (split; [ring|]); (split; [ring|]); eexists;
    (split; [apply lookup_insert_eq|]); ring.
Qed.

(** X15.  In the second revision [fade] can be applied at every progress,
    while [fly] and [slide] cannot be applied at any: their definitions
    hold a [translate] or a [scale] pair, on which the built-in mapper
    throws.  In index.ts all three apply at every progress. *)
Theorem X15_factories_and_the_mapper (node : View) (fadeO : FadeOptions)
    (flyO : FlyOptions) (slideO : SlideOptions) (time : number) (w : World) :
  fst (Rev.applyAnimAtTime (Rev.fade node fadeO) time w) = Normal tt /\
  fst (Rev.applyAnimAtTime (Rev.fly node flyO) time w) = Throw TypeError /\
  fst (Rev.applyAnimAtTime (Rev.slide node slideO) time w) = Throw TypeError /\
  fst (Index.applyAnimAtTime (Index.fade node fadeO) time w) = Normal tt /\
  fst (Index.applyAnimAtTime (Index.fly node flyO) time w) = Normal tt /\
  fst (Index.applyAnimAtTime (Index.slide node slideO) time w) = Normal tt.
Proof.
  repeat split; try (rewrite Index_applyAnimAtTime_eq; reflexivity); reflexivity.
Qed.

(** X16.  A curve name that is none of [ease], [easeIn], [easeOut],
    [easeInOut] and [linear] falls back to the linear curve, as does a
    missing or null curve; a cubic-bezier argument is converted from its
    four control points.  Both revisions. *)
Theorem X16_curve_resolution (delay duration : option number)
    (props : number -> list (string * Value))
    (apply : option (View -> list (string * Value) -> View)) (name : string)
    (cx1 cy1 cx2 cy2 : number) :
  (name <> "ease" -> name <> "easeIn" -> name <> "easeOut" -> name <> "easeInOut" ->
   svelteCurve (Index.asSvelteTransition delay duration (Some (CurveName name)) props apply)
   = linear /\
   svelteCurve (Rev.asSvelteTransition delay duration (Some (CurveName name)) props apply)
   = linear) /\
  svelteCurve (Index.asSvelteTransition delay duration None props apply) = linear /\
  svelteCurve (Rev.asSvelteTransition delay duration None props apply) = linear /\
  svelteCurve (Index.asSvelteTransition delay duration (Some CurveNull) props apply) = linear /\
  svelteCurve (Rev.asSvelteTransition delay duration (Some CurveNull) props apply) = linear /\
  svelteCurve (Index.asSvelteTransition delay duration
                 (Some (CurveBezier (cubicBezier cx1 cy1 cx2 cy2))) props apply)
  = animation_curve cx1 cy1 cx2 cy2 /\
  svelteCurve (Rev.asSvelteTransition delay duration
                 (Some (CurveBezier (cubicBezier cx1 cy1 cx2 cy2))) props apply)
  = animation_curve cx1 cy1 cx2 cy2.
Proof.
  split; [|repeat split; reflexivity].
  intros H1 H2 H3 H4. unfold Index.asSvelteTransition, Rev.asSvelteTransition. simpl.
  unfold AnimationCurve.ease, AnimationCurve.easeIn, AnimationCurve.easeOut,
    AnimationCurve.easeInOut, AnimationCurve.linear.
  apply String.eqb_neq in H1, H2, H3, H4. rewrite H1, H2, H3, H4.
  destruct (String.eqb name "linear"); split; reflexivity.
Qed.

(** X25.  Applied by index.ts to a view that has a style object, the
    definition of [slide] at progress [t] is written in one batched update
    and puts [scaleX] and [translateX] at the values they had when [slide]
    was called, [scaleY] at [t] times the scale it had, and [translateY] at
    the translation it had, lifted by [t] times half the measured height;
    the definition of [fade] puts [t] times the opacity the view had when
    [fade] was called under [opacity] on the style. *)
Theorem X25_index_slide_and_fade (node : View) (slideO : SlideOptions)
    (fadeO : FadeOptions) (t : number) (w : World) :
  is_Some (style (nativeView w)) ->
  (fst (Index.applyAnimAtTime (Index.slide node slideO) t w) = Normal tt /\
   calls (snd (Index.applyAnimAtTime (Index.slide node slideO) t w))
     = calls w ++ [CallBatchUpdate t] /\
   scaleX (nativeView (snd (Index.applyAnimAtTime (Index.slide node slideO) t w)))
     = scaleX node /\
   scaleY (nativeView (snd (Index.applyAnimAtTime (Index.slide node slideO) t w)))
     = t * scaleY node /\
   translateX (nativeView (snd (Index.applyAnimAtTime (Index.slide node slideO) t w)))
     = translateX node /\
   translateY (nativeView (snd (Index.applyAnimAtTime (Index.slide node slideO) t w)))
     = translateY node - t * 0.5 * effectiveHeight node) /\
  (fst (Index.applyAnimAtTime (Index.fade node fadeO) t w) = Normal tt /\
   calls (snd (Index.applyAnimAtTime (Index.fade node fadeO) t w))
     = calls w ++ [CallBatchUpdate t] /\
   styleOf (nativeView (snd (Index.applyAnimAtTime (Index.fade node fadeO) t w))) "opacity"
     = Some (VNumber (t * opacity node))).
Proof.
  intros [s Hs].
  unfold Index.applyAnimAtTime, batchUpdate, Index.slide, Index.fade,
    Index.asSvelteTransition, styleOf.
  cbn -[Qplus Qminus Qmult]. unfold bind, lift, modify, assignStyleOrView.
  cbn -[Qplus Qminus Qmult]. rewrite Hs. cbn -[Qplus Qminus Qmult].
  repeat split; try reflexivity. apply lookup_insert_eq.
Qed.

End Factories.

(** ** The direction, a view that is not realized, and the two revisions
    side by side *)

Lemma Rev_applyKey_eq animDef k v :
  String.eqb k "scale" || String.eqb k "translate" = false ->
  Rev.applyKey animDef k v = Index.applyKey animDef k v.
Proof.
  intros Hk. apply orb_false_iff in Hk. destruct Hk as [H1 H2].
  unfold Rev.applyKey, Index.applyKey. rewrite H1, H2. reflexivity.
Qed.

Lemma forEach_ext {S A} (l : list A) (f g : A -> Stmt S unit) :
  (forall a s, List.In a l -> f a s = g a s) ->
  forall s, forEach l f s = forEach l g s.
Proof.
  induction l as [|a rest IH]; intros Hfg s; simpl; [reflexivity|].
  unfold bind. rewrite (Hfg a s (or_introl eq_refl)).
  destruct (g a s) as [[[]|e] s']; [|reflexivity].
  apply IH. intros; apply Hfg; right; assumption.
Qed.

Section SideBySide.
Context `{Bezier}.

Lemma Rev_mapView_eq tr time v :
  Rev_applies tr time = true -> Rev_mapView tr time v = Index_mapView tr time v.
Proof.
  unfold Rev_applies, Rev_mapView, Index_mapView.
  destruct (applyNativeAnimationProps tr); [reflexivity|].
  intros Hk. apply negb_true_iff in Hk. f_equal.
  apply forEach_ext. intros k s Hin. apply Rev_applyKey_eq.
  destruct (String.eqb k "scale" || String.eqb k "translate") eqn:E; [|reflexivity].
  rewrite <- Hk. symmetry. apply existsb_exists. eauto.
Qed.

Lemma Rev_step_direction tr ev w :
  direction w <> Unknown -> direction (Rev.step tr ev w) <> Unknown.
Proof.
  destruct ev as [host t u|host|h|b]; simpl; intros Hd.
  - apply Rev_tick_direction. left. exact Hd.
  - destruct w as [d a lt v anims n cs]. simpl in *.
    destruct n; [exact Hd|]. tick_run; exact Hd.
  - exact Hd.
  - exact Hd.
Qed.

(** X17.  After the first tick the direction is known for good: in every
    run of index.ts that starts with a tick the direction is [In] or [Out]
    at the end, and so it is in the second revision when the definition at
    progress 0 can be applied. *)
Theorem X17_direction_known_after_first_tick (tr : Transition) (host : Host)
    (t : number) (u : option number) (evs : list Event) (w : World) :
  direction (Index.run tr (EvTick host t u :: evs) w) <> Unknown /\
  (Rev_applies tr 0 = true ->
   direction (Rev.run tr (EvTick host t u :: evs) w) <> Unknown).
Proof.
  split; [apply Index_run_direction|].
  intros Ha. unfold Rev.run. simpl.
  assert (direction (snd (Rev.tick tr host t u w)) <> Unknown) as Hd
    by (apply Rev_tick_direction; right; exact Ha).
  revert Hd. generalize (snd (Rev.tick tr host t u w)). clear w.
  induction evs as [|ev evs IH]; intros w Hd; simpl; [exact Hd|].
  apply IH, Rev_step_direction, Hd.
Qed.

(** X18.  While the view is not realized and no handle is stored, a tick
    that does not reverse the direction creates nothing and calls nothing
    on the facade, whatever the host would do: it applies the definition of
    the end point (1 when entering, 0 when leaving) and returns normally, in
    index.ts always and in the second revision when that definition can be
    applied. *)
Theorem X18_unrealized_tick_snaps (tr : Transition) (host : Host) (t : number)
    (u : option number) (w : World) :
  animation w = None ->
  (direction w = In /\ ~ t < last_t w) \/ (direction w = Out /\ ~ last_t w < t) ->
  nativeViewProtected (nativeView w) = false ->
  Index.tick tr host t u w =
    (Normal tt,
     set_nativeView
       (Index_mapView tr (match direction w with In => 1 | _ => 0 end) (nativeView w))
       (log (CallBatchUpdate (match direction w with In => 1 | _ => 0 end))
          (set_last_t t w))) /\
  (Rev_applies tr (match direction w with In => 1 | _ => 0 end) = true ->
   Rev.tick tr host t u w =
     (Normal tt,
      set_nativeView
        (Rev_mapView tr (match direction w with In => 1 | _ => 0 end) (nativeView w))
        (log (CallBatchUpdate (match direction w with In => 1 | _ => 0 end))
           (set_last_t t w)))).
Proof.
  destruct w as [d a lt v anims n cs]. simpl. intros -> [[-> Ht]|[-> Ht]] Hv; to_tests.
  all: split; [|intros Ha]; tick_go; reflexivity.
Qed.

(** X19.  Given both arguments, the two revisions do the same on every
    tick that leaves the adapter entering, provided that on a first tick
    their two tests classify alike ([t < 0.5] in index.ts, [u > 0.5] in the
    second revision), that the second revision can apply the definitions
    and that [createAnimation] does not throw: same completion, same closure
    state, same view, same calls.  Past the first tick the second argument
    plays no part in such a tick. *)
Theorem X19_revisions_agree_on_intros (tr : Transition) (host : Host) (t u : number)
    (w : World) :
  (forall time, Rev_applies tr time = true) ->
  createAnimation_throws host = false ->
  (direction w = Unknown -> (0.5 < u <-> t < 0.5)) ->
  direction (snd (Index.tick tr host t (Some u) w)) = In ->
  Rev.tick tr host t (Some u) w = Index.tick tr host t (Some u) w.
Proof.
  intros Ha Hc Hiff. pose proof (Ha 0) as H0. pose proof (Ha 1) as H1. pose proof (Ha t) as Ht.
  assert (direction w = Unknown -> Qlt_bool 0.5 u = Qlt_bool t 0.5) as Hu.
  { intros Hd. specialize (Hiff Hd). destruct (Qlt_bool t 0.5) eqn:E.
    - apply Qlt_bool_iff, Hiff, Qlt_bool_iff, E.
    - apply Qlt_bool_false_iff. intros Hlt. apply Hiff, Qlt_bool_iff in Hlt. congruence. }
  clear Hiff. destruct w as [d a lt v anims n cs]. simpl in Hu.
  unfold_tick. tick_simpl.
  destruct d; [rewrite (Hu eq_refl)| |]; clear Hu;
    repeat (first [rewrite Rev_mapView_eq by apply Ha | tick_known | tick_case]; tick_simpl);
    intros Hd; first [discriminate Hd | reflexivity | congruence].
Qed.

End SideBySide.

(** ** Array properties of a native element *)

Module ArrayPropsFacts.
Import ArrayProps.

Lemma indexOf_not_in value l : ~ List.In value l -> indexOf value l = None.
Proof.
  induction l as [|a rest IH]; simpl; [reflexivity|].
  intros Hn. destruct (Nat.eqb_spec a value) as [->|Hne]; [tauto|].
  rewrite IH by tauto. reflexivity.
Qed.

Lemma indexOf_first value l1 l2 :
  ~ List.In value l1 -> indexOf value (l1 ++ value :: l2) = Some (length l1).
Proof.
  induction l1 as [|a rest IH]; simpl; intros Hn.
  - rewrite Nat.eqb_refl. reflexivity.
  - destruct (Nat.eqb_spec a value) as [->|Hne]; [tauto|].
    rewrite IH by tauto. reflexivity.
Qed.

Lemma spliceDelete_middle value (l1 l2 : list nat) :
  spliceDelete (length l1) (l1 ++ value :: l2) = l1 ++ l2.
Proof.
  unfold spliceDelete. induction l1 as [|a rest IH]; simpl; [reflexivity|].
  f_equal. exact IH.
Qed.

Lemma not_in_take value i (l : list nat) : ~ List.In value l -> ~ List.In value (take i l).
Proof.
  revert i. induction l as [|a rest IH]; intros [|i]; simpl; try tauto.
  intros Hn [Heq|Hin]; [tauto|]. apply (IH i); tauto.
Qed.

Lemma spliceInsert_then_delete value i (l : list nat) :
  ~ List.In value l ->
  indexOf value (spliceInsert i value l) = Some (length (take i l)) /\
  spliceDelete (length (take i l)) (spliceInsert i value l) = l.
Proof.
  intros Hn. unfold spliceInsert. split.
  - apply indexOf_first, not_in_take, Hn.
  - rewrite spliceDelete_middle. apply take_drop.
Qed.

Lemma push_then_delete value (l : list nat) :
  ~ List.In value l ->
  indexOf value (l ++ [value]) = Some (length l) /\
  spliceDelete (length l) (l ++ [value]) = l.
Proof.
  intros Hn. split; [apply indexOf_first, Hn|].
  rewrite spliceDelete_middle. apply app_nil_r.
Qed.

Lemma arrayObject_eta a : {| observable := observable a; items := items a |} = a.
Proof. destruct a; reflexivity. Qed.

(** X20.  [setOnArrayProp] on a property that holds an array puts [value]
    at [index], or at the end when [index] is past the end or is [-1], and
    keeps the other items in their order.  An [ObservableArray] is changed
    in place; a plain array is never changed: the parent gets a new array
    and the old one keeps its items.  No other array and no other property
    of the parent is touched. *)
Theorem X20_setOnArrayProp_on_array (propName : string) (value : nat) (index : Z)
    (build : option (nat -> ArrayObject)) (s : Store) (r : nat) (a : ArrayObject) :
  parent s !! propName = Some (ArrayRef r) -> arrays s !! r = Some a ->
  readArray (setOnArrayProp propName value index build s) propName =
    Some {| observable := observable a;
            items := if (-1 <? index)%Z
                     then take (Z.to_nat index) (items a) ++ value
                            :: drop (Z.to_nat index) (items a)
                     else items a ++ [value] |} /\
  (if observable a
   then parent (setOnArrayProp propName value index build s) = parent s /\
        length (arrays (setOnArrayProp propName value index build s)) = length (arrays s)
   else arrays (setOnArrayProp propName value index build s) !! r = Some a /\
        parent (setOnArrayProp propName value index build s) !! propName
        = Some (ArrayRef (length (arrays s)))) /\
  (forall r', r' <> r -> (r' < length (arrays s))%nat ->
     arrays (setOnArrayProp propName value index build s) !! r' = arrays s !! r') /\
  (forall p, p <> propName ->
     parent (setOnArrayProp propName value index build s) !! p = parent s !! p).
Proof.
  intros Hp Ha. pose proof (lookup_lt_Some _ _ _ Ha) as Hlt.
  unfold setOnArrayProp, readArray. rewrite Hp, Ha.
  destruct a as [[|] l]; simpl; destruct (-1 <? index)%Z; unfold mutate, assignNew; simpl.
  all: rewrite ?Hp, ?lookup_insert_eq.
  all: split; [first [ apply list_lookup_insert_eq; exact Hlt
                     | rewrite lookup_app_r by lia; rewrite Nat.sub_diag; reflexivity ]|].
  all: split; [first [ split; [reflexivity | apply length_insert]
                     | split; [rewrite lookup_app_l by exact Hlt; exact Ha | reflexivity] ]|].
  all: split; [ intros r' Hne Hr';
                first [ apply list_lookup_insert_ne; congruence
                      | apply lookup_app_l; exact Hr' ]
              | intros p Hne; first [reflexivity | apply lookup_insert_ne; congruence] ].
Qed.

(** X21.  [setOnArrayProp] on a property that is missing, falsy or not an
    array replaces it by a new array holding just [value]: the one [build]
    makes when a builder is passed, a plain one otherwise.  [index] plays no
    part; the arrays that exist and the other properties stay as they
    are. *)
Theorem X21_setOnArrayProp_builds (propName : string) (value : nat) (index : Z)
    (build : option (nat -> ArrayObject)) (s : Store) :
  parent s !! propName = None \/ parent s !! propName = Some Falsy \/
  parent s !! propName = Some NotArray ->
  readArray (setOnArrayProp propName value index build s) propName =
    Some (match build with
          | Some b => b value
          | None => {| observable := false; items := [value] |}
          end) /\
  (forall r', (r' < length (arrays s))%nat ->
     arrays (setOnArrayProp propName value index build s) !! r' = arrays s !! r') /\
  (forall p, p <> propName ->
     parent (setOnArrayProp propName value index build s) !! p = parent s !! p).
Proof.
  intros Hp. unfold setOnArrayProp, readArray.
  assert (match parent s !! propName with
          | Some (ArrayRef r) => False
          | _ => True
          end) as Hcase by (destruct Hp as [-> | [-> | ->]]; exact I).
  destruct (parent s !! propName) as [[| |r]|]; try contradiction; unfold assignNew; simpl.
  all: rewrite lookup_insert_eq.
  all: split; [rewrite lookup_app_r by lia; rewrite Nat.sub_diag; reflexivity|].
  all: split; [intros r' Hr'; apply lookup_app_l; exact Hr'
              | intros p Hne; apply lookup_insert_ne; congruence].
Qed.

(** X22.  [removeFromArrayProp] changes nothing at all when the property
    holds no array or when [value] is not among the items of the array it
    holds. *)
Theorem X22_removeFromArrayProp_absent (propName : string) (value : nat) (s : Store) :
  (forall a, readArray s propName = Some a -> ~ List.In value (items a)) ->
  removeFromArrayProp propName value s = s.
Proof.
  unfold readArray, removeFromArrayProp. intros Hn.
  destruct (parent s !! propName) as [[| |r]|]; try reflexivity.
  destruct (arrays s !! r) as [a|]; [|reflexivity].
  rewrite (indexOf_not_in _ _ (Hn a eq_refl)). reflexivity.
Qed.

(** X23.  [removeFromArrayProp] removes the first occurrence of [value] and
    nothing else: later occurrences and all other items stay, in their
    order.  An [ObservableArray] is changed in place; for a plain array the
    parent gets a new array and the old one keeps its items. *)
Theorem X23_removeFromArrayProp_first_occurrence (propName : string) (value : nat)
    (s : Store) (r : nat) (a : ArrayObject) (l1 l2 : list nat) :
  parent s !! propName = Some (ArrayRef r) -> arrays s !! r = Some a ->
  items a = l1 ++ value :: l2 -> ~ List.In value l1 ->
  readArray (removeFromArrayProp propName value s) propName =
    Some {| observable := observable a; items := l1 ++ l2 |} /\
  (if observable a
   then parent (removeFromArrayProp propName value s) = parent s /\
        length (arrays (removeFromArrayProp propName value s)) = length (arrays s)
   else arrays (removeFromArrayProp propName value s) !! r = Some a /\
        parent (removeFromArrayProp propName value s) !! propName
        = Some (ArrayRef (length (arrays s)))).
Proof.
  intros Hp Ha Hitems Hn. pose proof (lookup_lt_Some _ _ _ Ha) as Hlt.
  unfold removeFromArrayProp, readArray. rewrite Hp, Ha, Hitems.
  rewrite (indexOf_first _ _ _ Hn), spliceDelete_middle.
  destruct a as [[|] l]; simpl in *; unfold mutate, assignNew; simpl.
  - rewrite Hp. split; [apply list_lookup_insert_eq; exact Hlt|].
    split; [reflexivity | apply length_insert].
  - rewrite lookup_insert_eq. split.
    + rewrite lookup_app_r by lia. rewrite Nat.sub_diag. reflexivity.
    + split; [rewrite lookup_app_l by exact Hlt; exact Ha | reflexivity].
Qed.

(** X24.  Adding an element that is not yet in the array and removing it
    again gives back the array: [removeFromArrayProp] after
    [setOnArrayProp] leaves the property with the items, in the order, it
    had before, at whatever [index] the element was put.  An
    [ObservableArray] is the same object throughout. *)
Theorem X24_set_then_remove (propName : string) (value : nat) (index : Z)
    (build : option (nat -> ArrayObject)) (s : Store) (r : nat) (a : ArrayObject) :
  parent s !! propName = Some (ArrayRef r) -> arrays s !! r = Some a ->
  ~ List.In value (items a) ->
  readArray (removeFromArrayProp propName value (setOnArrayProp propName value index build s))
    propName = Some a /\
  arrays (removeFromArrayProp propName value (setOnArrayProp propName value index build s)) !! r
  = Some a /\
  (observable a = true ->
   parent (removeFromArrayProp propName value (setOnArrayProp propName value index build s))
   = parent s).
Proof.
  intros Hp Ha Hn. pose proof (lookup_lt_Some _ _ _ Ha) as Hlt.
  destruct (spliceInsert_then_delete value (Z.to_nat index) _ Hn) as [Hi1 Hd1].
  destruct (push_then_delete value _ Hn) as [Hi2 Hd2].
  unfold setOnArrayProp. rewrite Hp, Ha.
  destruct a as [[|] l]; simpl in *; destruct (-1 <? index)%Z;
    unfold removeFromArrayProp, readArray, mutate, assignNew; simpl;
    rewrite ?Hp, ?lookup_insert_eq; simpl.
  - rewrite list_lookup_insert_eq by exact Hlt. simpl. rewrite Hi1, Hd1. simpl.
    rewrite Hp, list_insert_insert_eq, list_lookup_insert_eq by exact Hlt. auto.
  - rewrite list_lookup_insert_eq by exact Hlt. simpl. rewrite Hi2, Hd2. simpl.
    rewrite Hp, list_insert_insert_eq, list_lookup_insert_eq by exact Hlt. auto.
  - rewrite lookup_app_r by lia. rewrite Nat.sub_diag. simpl. rewrite Hi1, Hd1. simpl.
    rewrite lookup_insert_eq.
    split; [rewrite lookup_app_r by (rewrite length_app; simpl; lia);
            rewrite length_app; simpl;
            replace (length (arrays s) + 1 - (length (arrays s) + 1))%nat with 0%nat by lia;
            reflexivity|].
    split; [|discriminate].
    rewrite lookup_app_l by (rewrite length_app; lia).
    rewrite lookup_app_l by exact Hlt. exact Ha.
  - rewrite lookup_app_r by lia. rewrite Nat.sub_diag. simpl. rewrite Hi2, Hd2. simpl.
    rewrite lookup_insert_eq.
    split; [rewrite lookup_app_r by (rewrite length_app; simpl; lia);
            rewrite length_app; simpl;
            replace (length (arrays s) + 1 - (length (arrays s) + 1))%nat with 0%nat by lia;
            reflexivity|].
    split; [|discriminate].
    rewrite lookup_app_l by (rewrite length_app; lia).
    rewrite lookup_app_l by exact Hlt. exact Ha.
Qed.

End ArrayPropsFacts.

(** * The further properties on concrete runs *)

(** X1 at the tick [tick(0.2)] of a started intro. *)
Lemma X1_witness :
  animation introStarted = Some 0%nat /\
  (direction introStarted = In /\ ~ 0.2 < last_t introStarted) /\
  Index.tick indexFade quiet 0.2 None introStarted = (Normal tt, set_last_t 0.2 introStarted).
Proof.
  assert (animation introStarted = Some 0%nat) as Ha by (vm_compute; reflexivity).
  assert (direction introStarted = In /\ ~ 0.2 < last_t introStarted) as Hd
    by (split; [vm_compute; reflexivity | intros Hlt; vm_compute in Hlt; discriminate Hlt]).
  split; [exact Ha|]. split; [exact Hd|].
  exact (proj1 (X1_steady_tick_is_inert indexFade quiet 0.2 None introStarted 0%nat Ha
                  (or_introl Hd))).
Defined.

(** X2 at the tick that follows an abandoned creation. *)
Lemma X2_witness :
  direction introAbandoned = In /\ ~ 0.2 < last_t introAbandoned /\
  animation introAbandoned = None /\
  nativeViewProtected (nativeView introAbandoned) = true /\
  statusOf (snd (Index.tick indexFade quiet 0.2 None introAbandoned)) 0 = Some Created /\
  statusOf (Index.step indexFade (EvTimeout quiet)
              (snd (Index.tick indexFade quiet 0.2 None introAbandoned))) 0 = Some Playing.
Proof.
  assert (~ 0.2 < last_t introAbandoned) as Hlt
    by (intros Hlt; vm_compute in Hlt; discriminate Hlt).
  pose proof (X2_intro_play_is_deferred indexFade quiet quiet 0.2 None introAbandoned
                eq_refl Hlt eq_refl eq_refl eq_refl eq_refl) as [(_ & _ & Hc & _ & _ & _ & Hp) _].
  repeat split; try assumption.
Defined.

(** X3 at the tick that follows an abandoned creation of an outro. *)
Lemma X3_witness :
  direction outroAbandoned = Out /\ ~ last_t outroAbandoned < 0.7 /\
  animation outroAbandoned = None /\
  nativeViewProtected (nativeView outroAbandoned) = true /\
  statusOf (snd (Rev.tick revFade quiet 0.7 None outroAbandoned)) 0 = Some Playing.
Proof.
  assert (~ last_t outroAbandoned < 0.7) as Hlt
    by (intros Hlt; vm_compute in Hlt; discriminate Hlt).
  pose proof (X3_outro_plays_at_once revFade quiet 0.7 None outroAbandoned
                eq_refl Hlt eq_refl eq_refl eq_refl) as [_ (_ & _ & Hs & _)].
  repeat split; try assumption.
Defined.

(** X4 on the first tick of an intro, with a host that creates and with
    one that refuses. *)
Lemma X4_witness :
  fst (Index.tick indexFade quiet 0 (Some 1) (initial (exampleView true))) = Normal tt /\
  fst (Index.tick indexFade refusing 0 (Some 1) (initial (exampleView true)))
  = Throw NativeError /\
  animation (snd (Index.tick indexFade refusing 0 (Some 1) (initial (exampleView true))))
  = None.
Proof.
  split.
  - exact (proj1 (X4_index_tick_throws_only_from_createAnimation indexFade quiet 0 (Some 1)
                    (initial (exampleView true))) eq_refl).
  - assert (fst (Index.tick indexFade refusing 0 (Some 1) (initial (exampleView true)))
            = Throw NativeError) as Hthrow by (vm_compute; reflexivity).
    split; [exact Hthrow|].
    exact (proj1 (proj2 (proj2
      (proj2 (X4_index_tick_throws_only_from_createAnimation indexFade refusing 0 (Some 1)
                (initial (exampleView true))) NativeError Hthrow)))).
Defined.

(** X5 on [fade] with a host that refuses to create. *)
Lemma X5_witness :
  (forall time, Rev_applies revFade time = true) /\
  fst (Rev.tick revFade refusing 0 (Some 1) (initial (exampleView true))) = Normal tt.
Proof.
  assert (forall time, Rev_applies revFade time = true) as Ha by (intros time; reflexivity).
  split; [exact Ha|].
  exact (proj2 (X5_rev_tick_throws_only_from_mapper revFade refusing 0 (Some 1)
                  (initial (exampleView true))) Ha).
Defined.

(** X6 at a second refusal. *)
Lemma X6_witness :
  animation introAbandoned = None /\
  (direction introAbandoned = In /\ ~ 0.2 < last_t introAbandoned) /\
  nativeViewProtected (nativeView introAbandoned) = true /\
  Index.tick indexFade refusing 0.2 None introAbandoned
  = (Throw NativeError, set_last_t 0.2 introAbandoned) /\
  Rev.tick indexFade refusing 0.2 None introAbandoned
  = (Normal tt, set_last_t 0.2 introAbandoned).
Proof.
  assert (direction introAbandoned = In /\ ~ 0.2 < last_t introAbandoned) as Hd
    by (split; [vm_compute; reflexivity | intros Hlt; vm_compute in Hlt; discriminate Hlt]).
  split; [reflexivity|]. split; [exact Hd|]. split; [reflexivity|].
  exact (X6_failed_creation_is_abandoned indexFade refusing 0.2 None introAbandoned
           eq_refl (or_introl Hd) eq_refl eq_refl).
Defined.

(** X7 on a started intro, whose handle the callback plays, and on an
    intro that was turned back, where the callback scheduled for the
    dropped handle leaves that handle alone. *)
Lemma X7_witness :
  (0 < timers introStarted)%nat /\ animation introStarted = Some 0%nat /\
  statusOf introStarted 0 = Some Created /\
  statusOf (Index.step indexFade (EvTimeout quiet) introStarted) 0 = Some Playing /\
  calls (Index.step indexFade (EvTimeout quiet) introStarted)
  = calls introStarted ++ [CallPlay 0] /\
  animation turnedBack <> Some 0%nat /\
  animations (Index.step indexFade (EvTimeout quiet) turnedBack) !! 0%nat
  = animations turnedBack !! 0%nat.
Proof.
  assert (0 < timers introStarted)%nat as Htimers by (vm_compute; lia).
  assert (animation turnedBack <> Some 0%nat) as Hn
    by (intros Heq; vm_compute in Heq; discriminate Heq).
  split; [exact Htimers|]. split; [reflexivity|]. split; [vm_compute; reflexivity|].
  destruct (proj1 (proj2 (proj1
    (X7_timeout_touches_only_the_stored_handle indexFade quiet introStarted)))
    0%nat Htimers eq_refl eq_refl eq_refl) as [Hplayed Hcalls].
  split; [exact Hplayed|]. split; [exact Hcalls|]. split; [exact Hn|].
  exact (proj2 (proj2 (proj2 (proj2 (proj2 (proj2 (proj2 (proj2 (proj1
    (X7_timeout_touches_only_the_stored_handle indexFade quiet turnedBack)))))))))
    0%nat Hn).
Defined.

(** X8 on an intro that was turned back at once. *)
Lemma X8_witness :
  statusOf (Index.run indexFade [EvTick quiet 0.3 None; EvTick quiet 0.1 None]
              (initial (exampleView true))) 0 = Some Created /\
  animation (Index.run indexFade [EvTick quiet 0.3 None; EvTick quiet 0.1 None]
               (initial (exampleView true))) <> Some 0%nat /\
  statusOf (Index.run indexFade afterTurnedBack
              (Index.run indexFade [EvTick quiet 0.3 None; EvTick quiet 0.1 None]
                 (initial (exampleView true)))) 0 = Some Created.
Proof.
  assert (animation (Index.run indexFade [EvTick quiet 0.3 None; EvTick quiet 0.1 None]
                       (initial (exampleView true))) <> Some 0%nat) as Hn
    by (intros Heq; vm_compute in Heq; discriminate Heq).
  split; [vm_compute; reflexivity|]. split; [exact Hn|].
  exact (proj1 (proj1 (X8_dropped_handle_never_plays indexFade (exampleView true)
                         [EvTick quiet 0.3 None; EvTick quiet 0.1 None] afterTurnedBack 0%nat)
                  eq_refl Hn)).
Defined.

(** X9 on the intro [tick(0, 1)], [tick(0.2, 0.8)], [tick(0.5, 0.5)],
    [tick(1, 0)] of [fade]. *)
Lemma X9_witness :
  nativeViewProtected (Index_mapView indexFade 0 (exampleView true)) = true /\
  ~ 0 < 0 /\ 0 < 0.5 /\ ascending 0 introTicks = true /\
  map definition
    (animations (Index.run indexFade (EvTick quiet 0 (Some 1) :: introTicks)
                   (initial (exampleView true)))) =
  [Index.inAnimation indexFade 0 (nativeAnimationProps indexFade 1)].
Proof.
  assert (~ 0 < 0) as Hneg by (intros Hlt; vm_compute in Hlt; discriminate Hlt).
  split; [vm_compute; reflexivity|]. split; [exact Hneg|].
  split; [reflexivity|]. split; [vm_compute; reflexivity|].
  apply (X9_index_intro_is_one_animation indexFade (exampleView true) quiet 0 (Some 1)
           introTicks); first [exact Hneg | vm_compute; reflexivity].
Defined.

(** X10 on the same intro in the second revision. *)
Lemma X10_witness :
  Rev_applies revFade 0 = true /\
  nativeViewProtected (Rev_mapView revFade 0 (exampleView true)) = true /\
  ~ 0 < 0 /\ 0.5 < default (1 - 0) (Some 1) /\ ascending 0 introTicks = true /\
  map definition
    (animations (Rev.run revFade (EvTick quiet 0 (Some 1) :: introTicks)
                   (initial (exampleView true)))) =
  [Rev.inAnimation revFade 0 (nativeAnimationProps revFade 1)].
Proof.
  assert (~ 0 < 0) as Hneg by (intros Hlt; vm_compute in Hlt; discriminate Hlt).
  split; [reflexivity|]. split; [vm_compute; reflexivity|]. split; [exact Hneg|].
  split; [reflexivity|]. split; [vm_compute; reflexivity|].
  apply (X10_rev_intro_is_one_animation revFade (exampleView true) quiet 0 (Some 1)
           introTicks); first [exact Hneg | vm_compute; reflexivity].
Defined.

(** X11 on the outro [tick(1, 0)], [tick(0.7, 0.3)], [tick(0, 1)] of
    [fade], in index.ts. *)
Lemma X11_witness :
  nativeViewProtected (exampleView true) = true /\
  descending 1 outroTicks = true /\ ~ 1 < 0.5 /\
  map definition
    (animations (Index.run indexFade (EvTick quiet 1 (Some 0) :: outroTicks)
                   (initial (exampleView true)))) =
  [Index.outAnimation indexFade 1 (nativeAnimationProps indexFade 0)] /\
  existsb isBatchUpdate
    (calls (Index.run indexFade (EvTick quiet 1 (Some 0) :: outroTicks)
              (initial (exampleView true)))) = false.
Proof.
  assert (~ 1 < 0.5) as Hge by (intros Hlt; vm_compute in Hlt; discriminate Hlt).
  split; [reflexivity|]. split; [vm_compute; reflexivity|]. split; [exact Hge|].
  destruct (proj1 (X11_outro_is_one_animation indexFade (exampleView true) quiet 1 (Some 0)
                     outroTicks eq_refl eq_refl eq_refl) Hge) as (_ & _ & HD & Hb).
  split; assumption.
Defined.

(** X12 on [fly]. *)
Lemma X12_witness :
  applyNativeAnimationProps indexFly = None /\
  declaredKeys (nativeAnimationProps indexFly 0.5) = true /\
  mapperKeeps (exampleView true)
    (nativeView (snd (Index.applyAnimAtTime indexFly 0.5 (initial (exampleView true))))).
Proof.
  split; [reflexivity|]. split; [reflexivity|].
  exact (proj1 (X12_builtin_mapper_keeps indexFly 0.5 (initial (exampleView true))
                  eq_refl eq_refl)).
Defined.

(** X13 on [fly] at progress 0.5, with [x = 100] on a view at rest. *)
Lemma X13_witness :
  applyNativeAnimationProps indexFly = None /\
  NoDup (keys (nativeAnimationProps indexFly 0.5)) /\
  declaredKeys (nativeAnimationProps indexFly 0.5) = true /\
  is_Some (style (nativeView (initial (exampleView true)))) /\
  fst (Index.applyAnimAtTime indexFly 0.5 (initial (exampleView true))) = Normal tt /\
  translateX (nativeView (snd (Index.applyAnimAtTime indexFly 0.5
                                 (initial (exampleView true)))))
  = translateX (exampleView true) + (1 - 0.5) * default 0 (fly_x flyOptions).
Proof.
  assert (NoDup (keys (nativeAnimationProps indexFly 0.5))) as Hnd.
  { apply NoDup_cons. split; [|apply NoDup_cons; split; [|apply NoDup_nil_2]].
    - intros Hin. apply list_elem_of_In in Hin. simpl in Hin.
      destruct Hin as [Heq|[]]. discriminate Heq.
    - intros Hin. apply list_elem_of_In in Hin. destruct Hin. }
  assert (is_Some (style (nativeView (initial (exampleView true))))) as Hs
    by (simpl; eauto).
  split; [reflexivity|]. split; [exact Hnd|]. split; [reflexivity|]. split; [exact Hs|].
  pose proof (X13_index_mapper_result indexFly 0.5 (initial (exampleView true))
                eq_refl Hnd eq_refl Hs) as (Hnormal & _ & _ & Htranslate & _).
  split; [exact Hnormal|].
  exact (proj1 (Htranslate _ eq_refl)).
Defined.

(** X14 on the example view. *)
Lemma X14_witness :
  is_Some (style (nativeView (initial (exampleView true)))) /\
  translateX (nativeView (snd (Index.applyAnimAtTime (Index.fly (exampleView true) flyOptions) 0
                                 (initial (exampleView true)))))
  == translateX (exampleView true) + default 0 (fly_x flyOptions).
Proof.
  assert (is_Some (style (nativeView (initial (exampleView true))))) as Hs
    by (simpl; eauto).
  split; [exact Hs|].
  exact (proj1 (proj2 (X14_index_fly_end_points (exampleView true) flyOptions
                         (initial (exampleView true)) Hs))).
Defined.

(** X16 on the curve name [spring]. *)
Lemma X16_witness :
  svelteCurve (Index.asSvelteTransition None None (Some (CurveName "spring"))
                 scaleDefinition None) = linear.
Proof.
  apply (proj1 (X16_curve_resolution None None scaleDefinition None "spring" 0 0 1 1));
    discriminate.
Defined.

(** X17 on [fade] in the second revision. *)
Lemma X17_witness :
  Rev_applies revFade 0 = true /\
  direction (Rev.run revFade (EvTick quiet 0 (Some 1) :: introTicks)
               (initial (exampleView true))) <> Unknown.
Proof.
  split; [reflexivity|].
  exact (proj2 (X17_direction_known_after_first_tick revFade quiet 0 (Some 1) introTicks
                  (initial (exampleView true))) eq_refl).
Defined.

(** X18 at the second tick of an intro on a view that is not realized. *)
Lemma X18_witness :
  animation introUnrealized = None /\
  (direction introUnrealized = In /\ ~ 0.2 < last_t introUnrealized) /\
  nativeViewProtected (nativeView introUnrealized) = false /\
  fst (Index.tick indexFade quiet 0.2 None introUnrealized) = Normal tt /\
  animations (snd (Index.tick indexFade quiet 0.2 None introUnrealized)) = [].
Proof.
  assert (direction introUnrealized = In /\ ~ 0.2 < last_t introUnrealized) as Hd
    by (split; [vm_compute; reflexivity | intros Hlt; vm_compute in Hlt; discriminate Hlt]).
  split; [reflexivity|]. split; [exact Hd|]. split; [reflexivity|].
  rewrite (proj1 (X18_unrealized_tick_snaps indexFade quiet 0.2 None introUnrealized
                    eq_refl (or_introl Hd) eq_refl)).
  split; reflexivity.
Defined.

(** X19 on a first tick [tick(0.2, 0.9)] of [fade], whose two arguments
    are not complements of each other. *)
Lemma X19_witness :
  (forall time, Rev_applies indexFade time = true) /\
  (0.5 < 0.9 <-> 0.2 < 0.5) /\
  direction (snd (Index.tick indexFade quiet 0.2 (Some 0.9) (initial (exampleView true))))
  = In /\
  Rev.tick indexFade quiet 0.2 (Some 0.9) (initial (exampleView true))
  = Index.tick indexFade quiet 0.2 (Some 0.9) (initial (exampleView true)).
Proof.
  assert (forall time, Rev_applies indexFade time = true) as Ha by (intros time; reflexivity).
  assert (0.5 < 0.9 <-> 0.2 < 0.5) as Hiff by (split; intros _; reflexivity).
  assert (direction (snd (Index.tick indexFade quiet 0.2 (Some 0.9)
                            (initial (exampleView true)))) = In)
    as Hd by (vm_compute; reflexivity).
  split; [exact Ha|]. split; [exact Hiff|]. split; [exact Hd|].
  exact (X19_revisions_agree_on_intros indexFade quiet 0.2 0.9 (initial (exampleView true))
           Ha eq_refl (fun _ => Hiff) Hd).
Defined.

(** X20 on a plain array: element 9 put at index 1 of [[1; 2; 3]]. *)
Lemma X20_witness :
  ArrayProps.parent ArrayProps.exampleStore !! "items" = Some (ArrayProps.ArrayRef 0) /\
  ArrayProps.arrays ArrayProps.exampleStore !! 0%nat
  = Some {| ArrayProps.observable := false; ArrayProps.items := [1; 2; 3]%nat |} /\
  ArrayProps.readArray
    (ArrayProps.setOnArrayProp "items" 9 1 None ArrayProps.exampleStore) "items"
  = Some {| ArrayProps.observable := false; ArrayProps.items := [1; 9; 2; 3]%nat |}.
Proof.
  split; [reflexivity|]. split; [reflexivity|].
  exact (proj1 (ArrayPropsFacts.X20_setOnArrayProp_on_array "items" 9 1 None
                  ArrayProps.exampleStore 0
                  {| ArrayProps.observable := false; ArrayProps.items := [1; 2; 3]%nat |}
                  eq_refl eq_refl)).
Defined.

(** X21 on a property that is not set, with the builder of an observable
    array. *)
Lemma X21_witness :
  ArrayProps.parent ArrayProps.exampleStore !! "rows" = None /\
  ArrayProps.readArray
    (ArrayProps.setOnArrayProp "rows" 7 0 (Some ArrayProps.buildObservable)
       ArrayProps.exampleStore) "rows"
  = Some {| ArrayProps.observable := true; ArrayProps.items := [7%nat] |}.
Proof.
  split; [reflexivity|].
  exact (proj1 (ArrayPropsFacts.X21_setOnArrayProp_builds "rows" 7 0
                  (Some ArrayProps.buildObservable) ArrayProps.exampleStore
                  (or_introl eq_refl))).
Defined.

(** X22 on an element that is not in the array. *)
Lemma X22_witness :
  ArrayProps.removeFromArrayProp "items" 9 ArrayProps.exampleStore = ArrayProps.exampleStore.
Proof.
  apply ArrayPropsFacts.X22_removeFromArrayProp_absent.
  intros a Ha. vm_compute in Ha. inversion Ha; subst. simpl.
  intros [Heq|[Heq|[Heq|[]]]]; discriminate Heq.
Defined.

(** X23 on the observable array [[4; 5]]. *)
Lemma X23_witness :
  ArrayProps.parent ArrayProps.exampleStore !! "columns" = Some (ArrayProps.ArrayRef 1) /\
  ~ List.In 5%nat [4%nat] /\
  ArrayProps.readArray (ArrayProps.removeFromArrayProp "columns" 5 ArrayProps.exampleStore)
    "columns"
  = Some {| ArrayProps.observable := true; ArrayProps.items := [4%nat] |}.
Proof.
  assert (~ List.In 5%nat [4%nat]) as Hn by (intros [Heq|[]]; discriminate Heq).
  split; [reflexivity|]. split; [exact Hn|].
  exact (proj1 (ArrayPropsFacts.X23_removeFromArrayProp_first_occurrence "columns" 5
                  ArrayProps.exampleStore 1
                  {| ArrayProps.observable := true; ArrayProps.items := [4; 5]%nat |}
                  [4%nat] [] eq_refl eq_refl eq_refl Hn)).
Defined.

(** X24 on the plain array [[1; 2; 3]] and the element 9. *)
Lemma X24_witness :
  ~ List.In 9%nat [1; 2; 3]%nat /\
  ArrayProps.readArray
    (ArrayProps.removeFromArrayProp "items" 9
       (ArrayProps.setOnArrayProp "items" 9 1 None ArrayProps.exampleStore)) "items"
  = Some {| ArrayProps.observable := false; ArrayProps.items := [1; 2; 3]%nat |}.
Proof.
  assert (~ List.In 9%nat [1; 2; 3]%nat) as Hn
    by (intros [Heq|[Heq|[Heq|[]]]]; discriminate Heq).
  split; [exact Hn|].
  exact (proj1 (ArrayPropsFacts.X24_set_then_remove "items" 9 1 None ArrayProps.exampleStore 0
                  {| ArrayProps.observable := false; ArrayProps.items := [1; 2; 3]%nat |}
                  eq_refl eq_refl Hn)).
Defined.

(** X25 on the example view. *)
Lemma X25_witness :
  is_Some (style (nativeView (initial (exampleView true)))) /\
  scaleY (nativeView (snd (Index.applyAnimAtTime
                             (Index.slide (exampleView true)
                                {| slide_delay := None; slide_duration := None;
                                   slide_easing := None |}) 0.25
                             (initial (exampleView true)))))
  = 0.25 * scaleY (exampleView true).
Proof.
  assert (is_Some (style (nativeView (initial (exampleView true))))) as Hs
    by (simpl; eauto).
  split; [exact Hs|].
  exact (proj1 (proj2 (proj2 (proj2 (proj1 (X25_index_slide_and_fade (exampleView true)
                                {| slide_delay := None; slide_duration := None;
                                   slide_easing := None |}
                                fadeOptions 0.25 (initial (exampleView true)) Hs)))))).
Defined.
